(** * Joint-graph construction and virtual-token augmentation

    A shallow embedding of the re-ranking core of the retrieval pipeline:
    - [Graph_Retriever/train_re_ranker.py]: [build_joint_graph] and
      [build_label_diff_dataset];
    - [Siamese-Graphormer/network/encoder.py]:
      [GraphTransformerEncoder.forward].

    Python exceptions are values of [error]; every operation that can raise
    returns a [result].  Tensors are the 1-D and 2-D tensors the two files
    build, with their shapes kept explicit, so that the shape errors torch
    raises are visible in the model.  Integer tensors hold [Z] (with the
    64-bit wrap-around written out where the code does tensor arithmetic) and
    floating-point values are binary64 primitive floats. *)

From Stdlib Require Import List ZArith Lia Lqa Bool Arith Floats QArith Qminmax.
From Stdlib Require Import Permutation Sorted.
Import ListNotations.

Close Scope Q_scope.
Set Implicit Arguments.

(** ** Python exceptions and the error monad *)

Module Py.

Inductive error : Type :=
| IndexError
| RuntimeError
| ValueError
| AttributeError
| TypeError.

Inductive result (A : Type) : Type :=
| Ok (a : A)
| Err (e : error).

Arguments Ok {A} a.
Arguments Err {A} e.

Definition bind {A B : Type} (m : result A) (k : A -> result B) : result B :=
  match m with
  | Ok a => k a
  | Err e => Err e
  end.

(** [l[start:]] for a Python list or the rows of a tensor: a negative start
    counts from the end and is clamped at the beginning. *)
Definition slice_from {A : Type} (start : Z) (l : list A) : list A :=
  if (start <? 0)%Z
  then skipn (Z.to_nat (Z.max 0 (Z.of_nat (length l) + start))) l
  else skipn (Z.to_nat start) l.

End Py.

Export Py.

Declare Scope py_scope.
Notation "x <- m ;; k" := (bind m (fun x => k))
  (at level 61, m at next level, right associativity) : py_scope.
Open Scope py_scope.

(** ** Tensors

    The two source files only build 1-D tensors (index vectors, batch
    vectors) and 2-D tensors (feature matrices, [2 x E] edge indices).  A
    2-D tensor records its column count, so that a matrix with zero rows
    still has a width, as [torch.zeros((0, w))] has. *)

Module Torch.

Inductive tensor (A : Type) : Type :=
| Vec (v : list A)
| Mat (cols : nat) (rows : list (list A)).

Arguments Vec {A} v.
Arguments Mat {A} cols rows.

Section Shape.
Context {A : Type}.

(** [t.size(d)], with Python's negative dimensions. *)
Definition size (t : tensor A) (d : Z) : result nat :=
  match t with
  | Vec v =>
      if ((d =? 0) || (d =? -1))%Z then Ok (length v) else Err IndexError
  | Mat c rows =>
      if ((d =? 0) || (d =? -2))%Z then Ok (length rows)
      else if ((d =? 1) || (d =? -1))%Z then Ok c
      else Err IndexError
  end.

(** [len(t)]: the extent of the first dimension. *)
Definition len (t : tensor A) : nat :=
  match t with
  | Vec v => length v
  | Mat _ rows => length rows
  end.

(** [torch.cat] skips 1-D tensors of size 0 (kept by torch for backward
    compatibility), whatever the shape of the other tensors. *)
Definition legacy_empty (t : tensor A) : bool :=
  match t with
  | Vec [] => true
  | _ => false
  end.

Definition zip_app (ra rb : list (list A)) : list (list A) :=
  map (fun p => fst p ++ snd p) (combine ra rb).

Definition check_dim (dim : nat) (t : tensor A) : result (tensor A) :=
  match t with
  | Vec _ => if dim =? 0 then Ok t else Err IndexError
  | Mat _ _ => if dim <? 2 then Ok t else Err IndexError
  end.

Definition cat2 (dim : nat) (a b : tensor A) : result (tensor A) :=
  match a, b with
  | Vec u, Vec v => if dim =? 0 then Ok (Vec (u ++ v)) else Err IndexError
  | Mat ca ra, Mat cb rb =>
      match dim with
      | 0 => if ca =? cb then Ok (Mat ca (ra ++ rb)) else Err RuntimeError
      | 1 =>
          if length ra =? length rb
          then Ok (Mat (ca + cb) (zip_app ra rb))
          else Err RuntimeError
      | _ => Err IndexError
      end
  | _, _ => Err RuntimeError
  end.

(** [torch.cat(ts, dim)]. *)
Definition cat (ts : list (tensor A)) (dim : nat) : result (tensor A) :=
  match ts with
  | [] => Err RuntimeError
  | _ :: _ =>
      match filter (fun t => negb (legacy_empty t)) ts with
      | [] => Ok (Vec [])
      | t :: rest =>
          fold_left (fun acc u => a <- acc ;; cat2 dim a u) rest (check_dim dim t)
      end
  end.

(** The transpose of [rows], read as a matrix of [c] columns: row [j] of
    the result collects the [j]-th entries of the rows. *)
Fixpoint transpose_rows (c : nat) (rows : list (list A)) : list (list A) :=
  match c with
  | 0 => []
  | S c' => flat_map (firstn 1) rows :: transpose_rows c' (map (@tl A) rows)
  end.

(** [t.t()]: a 1-D tensor is returned as it is. *)
Definition t (x : tensor A) : tensor A :=
  match x with
  | Vec v => Vec v
  | Mat c rows => Mat (length rows) (transpose_rows c rows)
  end.

(** [torch.tensor(rows)] for a Python list of lists: the empty list gives
    the 1-D tensor of size 0, ragged rows are refused. *)
Definition tensor_of_lists (rows : list (list A)) : result (tensor A) :=
  match rows with
  | [] => Ok (Vec [])
  | r :: rs =>
      if forallb (fun r' => length r' =? length r) rs
      then Ok (Mat (length r) rows)
      else Err ValueError
  end.

(** [torch.stack([u, v], dim=0)] of two 1-D tensors. *)
Definition stack (u v : list A) : result (tensor A) :=
  if length u =? length v then Ok (Mat (length u) [u; v]) else Err RuntimeError.

(** [t[i]] on a 2-D tensor: its [i]-th row. *)
Definition select (rows : list (list A)) (i : nat) : result (list A) :=
  match nth_error rows i with
  | Some r => Ok r
  | None => Err IndexError
  end.

(** [v.unsqueeze(-1)] of a 1-D tensor. *)
Definition unsqueeze (v : list A) : tensor A :=
  Mat 1 (map (fun a => [a]) v).

(** [v.repeat_interleave(repeats)] of a 1-D tensor: [repeats] has one entry
    per element, or a single entry used for all. *)
Definition repeat_interleave (v : list A) (repeats : list Z) : result (list A) :=
  if existsb (fun r => r <? 0)%Z repeats then Err RuntimeError
  else if length repeats =? length v
  then Ok (flat_map (fun p => repeat (fst p) (Z.to_nat (snd p))) (combine v repeats))
  else match repeats with
       | [r] => Ok (flat_map (fun a => repeat a (Z.to_nat r)) v)
       | _ => Err RuntimeError
       end.

(** [row.repeat(n, 1)] of a [1 x w] parameter row, for a Python int [n]:
    a negative count is refused with [RuntimeError], and a count that does
    not fit a signed 64-bit integer with [TypeError]. *)
Definition repeat_rows (row : list A) (n : Z) : result (tensor A) :=
  if (n <? 0)%Z then Err RuntimeError
  else if (2 ^ 63 <=? n)%Z then Err TypeError
  else Ok (Mat (length row) (repeat row (Z.to_nat n))).

(** [t[start:]]. *)
Definition slice (x : tensor A) (start : Z) : tensor A :=
  match x with
  | Vec v => Vec (slice_from start v)
  | Mat c rows => Mat c (slice_from start rows)
  end.

End Shape.

(** *** Integer tensors *)

(** 64-bit two's complement wrap-around of [torch.long] arithmetic. *)
Definition wrap64 (z : Z) : Z :=
  ((z + 2 ^ 63) mod 2 ^ 64 - 2 ^ 63)%Z.

(** [t + k] for a long tensor and a Python int. *)
Definition add_scalar (x : tensor Z) (k : Z) : tensor Z :=
  match x with
  | Vec v => Vec (map (fun a => wrap64 (a + k)) v)
  | Mat c rows => Mat c (map (map (fun a => wrap64 (a + k))) rows)
  end.

(** [torch.arange(a, b)]. *)
Definition arange (a b : Z) : list Z :=
  map (fun i => (a + Z.of_nat i)%Z) (seq 0 (Z.to_nat (b - a))).

Definition elements (x : tensor Z) : list Z :=
  match x with
  | Vec v => v
  | Mat _ rows => concat rows
  end.

(** [t.max().item()]: refused on a tensor without elements. *)
Definition max_item (x : tensor Z) : result Z :=
  match elements x with
  | [] => Err RuntimeError
  | a :: l => Ok (fold_left Z.max l a)
  end.

(** [t.bincount()]: 1-D, non-negative entries only; one count per value
    from 0 to the largest entry. *)
Definition bincount (x : tensor Z) : result (list Z) :=
  match x with
  | Mat _ _ => Err RuntimeError
  | Vec [] => Ok []
  | Vec (a :: l) =>
      if existsb (fun b => b <? 0)%Z (a :: l) then Err RuntimeError
      else Ok (map (fun k => Z.of_nat (count_occ Z.eq_dec (a :: l) k))
                   (arange 0 (fold_left Z.max l a + 1)))
  end.

(** [torch.zeros(n, dtype=torch.long)]. *)
Definition zeros_long (n : nat) : tensor Z := Vec (repeat 0%Z n).

(** *** Floating-point tensors *)

(** [torch.zeros((r, c))]. *)
Definition zeros (r c : nat) : tensor float :=
  Mat c (repeat (repeat 0%float c) r).

(** Conversion of a binary64 value to [torch.float] (binary32, round to
    nearest even); the result is again held as a binary64 value. *)
Definition float32 (d : float) : float :=
  match Prim2SF d with
  | S754_finite s m e => SF2Prim (binary_round 24 128 s m e)
  | _ => d
  end.

(** [nn.Linear(in_features, out_features)] applies its affine map [f] to
    the last dimension, and refuses any other width. *)
Definition linear (in_features out_features : nat)
  (f : list float -> list float) (x : tensor float) : result (tensor float) :=
  match x with
  | Vec v => if length v =? in_features then Ok (Vec (f v)) else Err RuntimeError
  | Mat c rows =>
      if c =? in_features then Ok (Mat out_features (map f rows))
      else Err RuntimeError
  end.

End Torch.

Export Torch.

(** ** Label arithmetic

    [build_label_diff_dataset] normalises a numpy array of labels.  The
    arithmetic is written once over the operations numpy applies
    element-wise, and read at two scalar types: binary64, which is what the
    code computes with, and the rationals, the exact arithmetic the formula
    is written in. *)

Module Numpy.

Class Scalar (T : Type) : Type := {
  sub : T -> T -> T;
  mul : T -> T -> T;
  div : T -> T -> T;
  one : T;
  two : T;
  minimum : T -> T -> T;
  maximum : T -> T -> T
}.

(** binary64: division by zero raises nothing and gives an infinity or a
    NaN; [np.minimum] and [np.maximum] return a NaN operand. *)
#[export] Instance float64 : Scalar float := {
  sub := PrimFloat.sub;
  mul := PrimFloat.mul;
  div := PrimFloat.div;
  one := 1%float;
  two := 2%float;
  minimum := fun a b =>
    if is_nan a then a else if is_nan b then b
    else if PrimFloat.ltb b a then b else a;
  maximum := fun a b =>
    if is_nan a then a else if is_nan b then b
    else if PrimFloat.ltb a b then b else a
}.

#[export] Instance exact : Scalar Q := {
  sub := Qminus;
  mul := Qmult;
  div := Qdiv;
  one := 1%Q;
  two := 2%Q;
  minimum := Qmin;
  maximum := Qmax
}.

Section Labels.
Context {T : Type} `{Scalar T}.

(** [np.min(labels)] and [np.max(labels)]: a [ValueError] on an empty array. *)
Definition np_min (labels : list T) : result T :=
  match labels with
  | [] => Err ValueError
  | a :: l => Ok (fold_left minimum l a)
  end.

Definition np_max (labels : list T) : result T :=
  match labels with
  | [] => Err ValueError
  | a :: l => Ok (fold_left maximum l a)
  end.

(** One entry of [2 * (labels - min_label) / (max_label - min_label) - 1]. *)
Definition norm_label (min_label max_label label : T) : T :=
  sub (div (mul two (sub label min_label)) (sub max_label min_label)) one.

(** Lines 47-49 of [build_label_diff_dataset]. *)
Definition norm_labels (labels : list T) : result (list T) :=
  min_label <- np_min labels ;;
  max_label <- np_max labels ;;
  Ok (map (norm_label min_label max_label) labels).

End Labels.



(** [a[i]] for a 1-D array or a Python list and a non-negative index. *)
Definition getitem {A : Type} (a : list A) (i : nat) : result A :=
  match nth_error a i with
  | Some v => Ok v
  | None => Err IndexError
  end.

End Numpy.

Export Numpy.

(** ** [Graph_Retriever/train_re_ranker.py] *)

Module ReRanker.

(** A [torch_geometric.data.Data] object with the attributes the two
    functions read and write. *)
Record Data : Type := mkData {
  x : tensor float;
  edge_index : tensor Z;
  edge_attr : tensor float;
  batch : option (tensor Z);
  y : option (tensor float)
}.

(** [data.num_nodes], which torch_geometric reads off the node-feature
    tensor: its number of rows. *)
Definition num_nodes (d : Data) : nat := len (x d).

(** The Python list [cross_edges] after the two nested loops of lines
    30-34. *)
Definition cross_edge_list (N_q N_c : nat) : list (list Z) :=
  flat_map
    (fun i =>
       flat_map
         (fun j =>
            [[Z.of_nat i; Z.of_nat (N_q + j)]; [Z.of_nat (N_q + j); Z.of_nat i]])
         (seq 0 N_c))
    (seq 0 N_q).

(** The directed edges held by a [2 x E] edge index, as pairs. *)
Definition edges (ei : tensor Z) : list (Z * Z) :=
  match ei with
  | Mat _ [src; dst] => combine src dst
  | _ => []
  end.

Definition node_rows (d : Data) : list (list float) :=
  match x d with
  | Mat _ rows => rows
  | Vec _ => []
  end.

Definition attr_rows (d : Data) : list (list float) :=
  match edge_attr d with
  | Mat _ rows => rows
  | Vec _ => []
  end.

(** An edge with both endpoints moved by [k]. *)
Definition shift_edge (k : nat) (e : Z * Z) : Z * Z :=
  (fst e + Z.of_nat k, snd e + Z.of_nat k)%Z.

(** The complete bipartite bridge between nodes [0 .. N_q-1] and nodes
    [N_q .. N_q+N_c-1], both directions, in the order of the loops. *)
Definition cross_pairs (N_q N_c : nat) : list (Z * Z) :=
  flat_map
    (fun i =>
       flat_map
         (fun j =>
            [(Z.of_nat i, Z.of_nat (N_q + j)); (Z.of_nat (N_q + j), Z.of_nat i)])
         (seq 0 N_c))
    (seq 0 N_q).

(** One Python list [[u, v]] of [cross_edges]. *)
Definition pair_row (p : Z * Z) : list Z := [fst p; snd p].

Definition edge_eq_dec (a b : Z * Z) : {a = b} + {a <> b}.
Proof. decide equality; apply Z.eq_dec. Defined.

(** The edges a graph holds after its first [n] ones, and their attribute
    rows. *)
Definition edges_after (n : nat) (d : Data) : list (Z * Z) :=
  skipn n (edges (edge_index d)).

Definition attr_rows_after (n : nat) (d : Data) : list (list float) :=
  skipn n (attr_rows d).

(** A graph of the data model: [N] nodes with [F] features each ([N x F]
    node features), [E] directed edges between them ([2 x E] edge index,
    ids in [0 .. N-1]) and [E x W] edge features. *)
Record graph (N F E W : nat) (d : Data) : Prop := {
  graph_x : x d = Mat F (node_rows d);
  graph_nodes : length (node_rows d) = N;
  graph_edge_index :
    exists src dst,
      edge_index d = Mat E [src; dst] /\ length src = E /\ length dst = E /\
      Forall (fun v => 0 <= v < Z.of_nat N)%Z (src ++ dst);
  graph_edge_attr : edge_attr d = Mat W (attr_rows d);
  graph_attr_rows : length (attr_rows d) = E
}.

(** A graph with at least one node, as every molecule has, and few enough
    for node ids to fit 64 bits with room to spare. *)
Definition molecule (F W : nat) (d : Data) : Prop :=
  exists N E, 0 < N /\ (Z.of_nat N < 2 ^ 62)%Z /\ graph N F E W d.

Section Builder.

(** [utils.graph_utils.preprocess_graph] is not part of the two files: it is
    a parameter of the development. *)
Variable preprocess_graph : Data -> Data.

Definition build_joint_graph (q_data c_data : Data) (label_diff : option float)
  : result Data :=
  let q_data := preprocess_graph q_data in
  let c_data := preprocess_graph c_data in
  let N_q := num_nodes q_data in
  let N_c := num_nodes c_data in
  x' <- cat [x q_data; x c_data] 0 ;;
  edge_index' <- cat [edge_index q_data;
                      add_scalar (edge_index c_data) (Z.of_nat N_q)] 1 ;;
  edge_attr' <- cat [edge_attr q_data; edge_attr c_data] 0 ;;
  cross_edges <- tensor_of_lists (cross_edge_list N_q N_c) ;;
  let cross_edges := t cross_edges in
  edge_index' <- cat [edge_index'; cross_edges] 1 ;;
  n_cross <- size cross_edges 1 ;;
  width <- size edge_attr' 1 ;;
  let cross_attr := zeros n_cross width in
  edge_attr' <- cat [edge_attr'; cross_attr] 0 ;;
  let batch' := zeros_long (N_q + N_c) in
  let y' := option_map (fun d => Vec [float32 d]) label_diff in
  Ok (mkData x' edge_index' edge_attr' (Some batch') y').

(** [g] is the joint graph built for the index pair [ij]: two distinct
    indices of [graphs], and the target stored in [g] is the [torch.float]
    tensor made of the difference of their normalised labels. *)
Definition sampled_from (graphs : list Data) (norm : list float)
  (g : Data) (ij : nat * nat) : Prop :=
  fst ij <> snd ij /\ fst ij < length graphs /\ snd ij < length graphs /\
  exists n_i n_j g_i g_j,
    nth_error norm (fst ij) = Some n_i /\ nth_error norm (snd ij) = Some n_j /\
    nth_error graphs (fst ij) = Some g_i /\ nth_error graphs (snd ij) = Some g_j /\
    build_joint_graph g_i g_j (Some (sub n_i n_j)) = Ok g /\
    y g = Some (Vec [float32 (sub n_i n_j)]).

(** The joint graph of two graphs with [N_a] and [N_b] nodes, [E_a] and
    [E_b] edges, [F] node features and [W] edge features, written out:
    what [build_joint_graph] is shown to return when both have nodes. *)
Definition joint_graph_of (A B : Data) (label_diff : option float)
  (N_a N_b F E_a E_b W : nat) : Data :=
  let A' := preprocess_graph A in
  let B' := preprocess_graph B in
  mkData
    (Mat F (node_rows A' ++ node_rows B'))
    (Mat (E_a + E_b + 2 * N_a * N_b)
       [map fst (edges (edge_index A') ++
                 map (shift_edge N_a) (edges (edge_index B')) ++
                 cross_pairs N_a N_b);
        map snd (edges (edge_index A') ++
                 map (shift_edge N_a) (edges (edge_index B')) ++
                 cross_pairs N_a N_b)])
    (Mat W (attr_rows A' ++ attr_rows B' ++
            repeat (repeat 0%float W) (2 * N_a * N_b)))
    (Some (Vec (repeat 0%Z (N_a + N_b))))
    (option_map (fun d => Vec [float32 d]) label_diff).

(** The state of Python's [random] module, and [random.sample(range(n), 2)]
    for [n >= 2], are parameters; [random.sample] raises [ValueError] when
    the population is smaller than the sample. *)
Variable rng : Type.
Variable sample2 : rng -> nat -> (nat * nat) * rng.

Definition random_sample (s : rng) (n : nat) : result ((nat * nat) * rng) :=
  if n <? 2 then Err ValueError else Ok (sample2 s n).

(** The loop of lines 52-56, on the normalised labels. *)
Fixpoint build_pairs (graphs : list Data) (norm : list float)
  (num_pairs : nat) (s : rng) (pairs : list Data) : result (list Data * rng) :=
  match num_pairs with
  | 0 => Ok (pairs, s)
  | S k =>
      draw <- random_sample s (length graphs) ;;
      let '((i, j), s') := draw in
      n_i <- getitem norm i ;;
      n_j <- getitem norm j ;;
      let label_diff := sub n_i n_j in
      g_i <- getitem graphs i ;;
      g_j <- getitem graphs j ;;
      joint_graph <- build_joint_graph g_i g_j (Some label_diff) ;;
      build_pairs graphs norm k s' (pairs ++ [joint_graph])
  end.

Definition build_label_diff_dataset (graphs : list Data) (labels : list float)
  (num_pairs : nat) (s : rng) : result (list Data * rng) :=
  norm <- norm_labels labels ;;
  build_pairs graphs norm num_pairs s [].

(** The index pairs drawn by the successive iterations of the loop. *)
Fixpoint draws (n num_pairs : nat) (s : rng) : list (nat * nat) :=
  match num_pairs with
  | 0 => []
  | S k => fst (sample2 s n) :: draws n k (snd (sample2 s n))
  end.

End Builder.

End ReRanker.

(** ** [Siamese-Graphormer/network/encoder.py] *)

Module Encoder.

(** [network.edge_attention.EdgeConditionedGraphAttention] is not part of
    the two files: a layer is any map from node features, edge index and
    edge attributes to node features. *)
Definition layer : Type := tensor float -> tensor Z -> tensor float -> tensor float.

(** Lines 24-25: a 1-D [edge_attr] becomes a matrix of width 1. *)
Definition promote (edge_attr : tensor float) : tensor float :=
  match edge_attr with
  | Vec v => unsqueeze v
  | Mat _ _ => edge_attr
  end.

(** The tensors [forward] has built when it reaches its layer loop
    (lines 22-47). *)
Record augmented : Type := mkAugmented {
  aug_x : tensor float;
  aug_edge_index : tensor Z;
  aug_edge_attr : tensor float;
  aug_batch : tensor Z;
  aug_batch_size : Z
}.

(** [batch.max().item() + 1] on a batch vector with entries. *)
Definition batch_size_of (batch : list Z) : Z :=
  match batch with
  | [] => 0
  | a :: l => fold_left Z.max l a + 1
  end.

(** The batch vector rebuilt from its counts: each id [i < B], in
    ascending order, as many times as it occurs in [batch]. *)
Definition expand (batch : list Z) (B : nat) : list Z :=
  flat_map (fun i => repeat (Z.of_nat i) (count_occ Z.eq_dec batch (Z.of_nat i)))
           (seq 0 B).

Definition reverse_edge (e : Z * Z) : Z * Z := (snd e, fst e).

(** The [n] virtual-token edges of an augmented edge list: they follow the
    [E] input edges. *)
Definition virtual_edges_of (E n : nat) (a : augmented) : list (Z * Z) :=
  firstn n (skipn E (ReRanker.edges (aug_edge_index a))).

(** The number of distinct instance ids of a batch vector. *)
Definition num_instances (batch : list Z) : nat :=
  length (nodup Z.eq_dec batch).

(** A batch vector over the dense range [0 .. B-1]. *)
Definition dense (batch : list Z) (B : Z) : Prop :=
  forall k : Z, In k batch <-> (0 <= k < B)%Z.

(** The real nodes carrying instance id [k]. *)
Definition instance_size (batch : list Z) (k : Z) : nat :=
  count_occ Z.eq_dec batch k.

Section GraphTransformerEncoder.

(** The arguments and the learned parameters of [__init__]: the linear
    maps are given by their action on one feature row. *)
Variables in_channels hidden_channels out_channels : nat.
Variable virtual_token : list float.
Variable input_proj : list float -> list float.
Variable layers : list layer.
Variable output_proj : list float -> list float.

(** Lines 22-47 of [forward]. *)
Definition augment (x : tensor float) (edge_index : tensor Z)
  (edge_attr : option (tensor float)) (batch : tensor Z) : result augmented :=
  x <- linear in_channels hidden_channels input_proj x ;;
  let edge_attr := option_map promote edge_attr in
  m <- max_item batch ;;
  let batch_size := (m + 1)%Z in
  virtual <- repeat_rows virtual_token batch_size ;;
  x <- cat [x; virtual] 0 ;;
  n <- size x 0 ;;
  let virtual_index := arange (Z.of_nat n - batch_size) (Z.of_nat n) in
  counts <- bincount batch ;;
  repeated_virtual <- repeat_interleave virtual_index counts ;;
  let all_nodes := arange 0 (Z.of_nat (len batch)) in
  virtual_edges <- stack repeated_virtual all_nodes ;;
  new_edge_index <- cat [edge_index; virtual_edges] 1 ;;
  match new_edge_index with
  | Vec _ => Err RuntimeError (* not reached: [virtual_edges] is 2-D *)
  | Mat _ rows =>
      row1 <- select rows 1 ;;
      row0 <- select rows 0 ;;
      reversed_edge_index <- stack row1 row0 ;;
      new_edge_index <- cat [new_edge_index; reversed_edge_index] 1 ;;
      edge_attr <- match edge_attr with
                   | Some e => Ok e
                   | None => Err AttributeError
                   end ;;
      n_virtual <- size virtual_edges 1 ;;
      width <- size edge_attr (-1) ;;
      let zero_virtual_edge_attr := zeros n_virtual width in
      new_edge_attr <- cat [edge_attr; zero_virtual_edge_attr] 0 ;;
      new_edge_attr <- cat [new_edge_attr; new_edge_attr] 0 ;;
      batch <- cat [batch; Vec (arange 0 batch_size)] 0 ;;
      Ok (mkAugmented x new_edge_index new_edge_attr batch batch_size)
  end.

(** The augmented graph of [N] projected node rows [xs], [E] input edges
    [src -> dst] with attribute rows [ea] of width [W], and the batch vector
    [b], written out: what [augment] is shown to return. *)
Definition augmented_of (xs : list (list float)) (E : nat) (src dst : list Z)
  (W : nat) (ea : list (list float)) (b : list Z) : augmented :=
  let N := length xs in
  let n := length b in
  let B := batch_size_of b in
  let virtual_src := map (fun v => Z.of_nat N + v)%Z (expand b (Z.to_nat B)) in
  let nodes := arange 0 (Z.of_nat n) in
  let zero_rows := repeat (repeat 0%float W) n in
  mkAugmented
    (Mat hidden_channels (map input_proj xs ++ repeat virtual_token (Z.to_nat B)))
    (Mat (E + n + (E + n))
       [(src ++ virtual_src) ++ (dst ++ nodes);
        (dst ++ nodes) ++ (src ++ virtual_src)])
    (Mat W ((ea ++ zero_rows) ++ (ea ++ zero_rows)))
    (Vec (b ++ arange 0 B))
    B.

(** Lines 49-50: the layers, in order, on the augmented graph. *)
Definition run_layers (a : augmented) : tensor float :=
  fold_left (fun x l => l x (aug_edge_index a) (aug_edge_attr a)) layers (aug_x a).

Definition forward (x : tensor float) (edge_index : tensor Z)
  (edge_attr : option (tensor float)) (batch : tensor Z) : result (tensor float) :=
  a <- augment x edge_index edge_attr batch ;;
  linear hidden_channels out_channels output_proj
    (slice (run_layers a) (- aug_batch_size a)).

End GraphTransformerEncoder.

End Encoder.

(** ** [train_re_ranker] *)

Module Training.

Import ReRanker.

(** What ends a run of [train_re_ranker] early: an error raised by the
    model, the criterion or the optimizer, or the division of line 72. *)
Inductive exception : Type :=
| Raised (e : error)
| ZeroDivisionError.

(** One line printed by line 73: the epoch number, the number of epochs and
    the average loss (the formatting to four decimals is left out). *)
Record report : Type := mkReport {
  report_epoch : nat;
  report_epochs : nat;
  report_loss : float
}.

(** How a call ends: with the model and optimizer state it leaves behind
    and the lines printed so far. *)
Inductive outcome (state : Type) : Type :=
| Returned (s : state) (printed : list report)
| Failed (e : exception) (s : state) (printed : list report).

Arguments Returned {state} s printed.
Arguments Failed {state} e s printed.

(** [total_loss / len(loader)]: a float divided by a Python int, which is
    converted to a float first ([len(loader)] is taken below 2^63). *)
Definition true_div (total_loss : float) (n : nat) : option float :=
  if n =? 0 then None
  else Some (total_loss / of_uint63 (Uint63.of_Z (Z.of_nat n)))%float.

Section Trainer.

(** [network.re_ranker.CrossEncoderGNN], the optimizer and the criterion are
    not part of the two files: [state] holds the parameters of the model
    and the state of the optimizer, [train] is [model.train()], and [step]
    is lines 65-70 on one batch, returning the new state and [loss.item()],
    or the error the model, [data.y.squeeze()], the criterion or the
    optimizer raise. *)
Variable state : Type.
Variable train : state -> state.
Variable step : state -> Data -> result (state * float).

(** The loader: the batches it yields when it is iterated for the
    [epoch]-th time, and [len(loader)]. *)
Variable batches : nat -> list Data.
Variable len_loader : nat.

(** Lines 64-71: the loop over the batches of one epoch; an error of a
    step ends it. *)
Fixpoint run_epoch (data : list Data) (s : state) (total_loss : float)
  : state * float * option error :=
  match data with
  | [] => (s, total_loss, None)
  | d :: rest =>
      match step s d with
      | Ok (s', loss) => run_epoch rest s' (total_loss + loss)%float
      | Err e => (s, total_loss, Some e)
      end
  end.

(** Lines 62-73, with [todo] of the [epochs] epochs left to run. *)
Fixpoint epoch_loop (epochs todo : nat) (s : state) (printed : list report)
  : outcome state :=
  match todo with
  | 0 => Returned s printed
  | S k =>
      let epoch := epochs - todo in
      match run_epoch (batches epoch) s 0%float with
      | (s', _, Some e) => Failed (Raised e) s' printed
      | (s', total_loss, None) =>
          match true_div total_loss len_loader with
          | None => Failed ZeroDivisionError s' printed
          | Some avg_loss =>
              epoch_loop epochs k s'
                (printed ++ [mkReport (epoch + 1) epochs avg_loss])
          end
      end
  end.

Definition train_re_ranker (epochs : nat) (s : state) : outcome state :=
  epoch_loop epochs epochs (train s) [].

End Trainer.

End Training.

(** ** Concrete inputs *)

Module Examples.

Import ReRanker Encoder.

(** Graphs that are already feature-encoded: preprocessing leaves them as
    they are. *)
Definition already_encoded (d : Data) : Data := d.

(** Two nodes joined by an edge in both directions; one node feature, one
    edge feature. *)
Definition pair_graph : Data :=
  mkData (Mat 1 [[1%float]; [2%float]])
         (Mat 2 [[0; 1]; [1; 0]]%Z)
         (Mat 1 [[5%float]; [6%float]])
         None None.

(** A path on three nodes. *)
Definition path_graph : Data :=
  mkData (Mat 1 [[1%float]; [2%float]; [3%float]])
         (Mat 4 [[0; 1; 1; 2]; [1; 0; 2; 1]]%Z)
         (Mat 1 [[5%float]; [5%float]; [6%float]; [6%float]])
         None None.

(** Two and three isolated nodes, edge-feature width 1. *)
Definition two_nodes : Data :=
  mkData (Mat 1 [[1%float]; [2%float]]) (Mat 0 [[]; []]) (Mat 1 []) None None.

Definition three_nodes : Data :=
  mkData (Mat 1 [[1%float]; [2%float]; [3%float]]) (Mat 0 [[]; []]) (Mat 1 [])
         None None.

(** The graph without nodes. *)
Definition empty_graph : Data :=
  mkData (Mat 1 []) (Mat 0 [[]; []]) (Mat 1 []) None None.

(** A generator for the concrete runs: a linear congruential generator
    stands for the Mersenne Twister, and [pool_sample2] selects as
    [random.sample] does from a pool: the first index is drawn among [n],
    its slot is refilled with the last index, the second is drawn among the
    first [n - 1] slots. *)
Definition lcg (s : Z) : Z := ((s * 1103515245 + 12345) mod 2147483648)%Z.

Definition randbelow (s : Z) (n : nat) : nat := Z.to_nat (s mod Z.of_nat n).

Definition pool_sample2 (s : Z) (n : nat) : (nat * nat) * Z :=
  let i := randbelow s n in
  let s1 := lcg s in
  let j0 := randbelow s1 (n - 1) in
  let j := if j0 =? i then n - 1 else j0 in
  ((i, j), lcg s1).

(** The graph list of the concrete dataset runs. *)
Definition example_graphs : list Data := [pair_graph; path_graph; pair_graph].

(** A network for the concrete runs: identity input projection, two
    layers that add one to every feature, an output projection that
    doubles the row. *)
Definition example_layer : layer :=
  fun x _ _ =>
    match x with
    | Mat c rows => Mat c (map (map (fun v => v + 1)%float) rows)
    | Vec v => Vec v
    end.

(** Three nodes with one feature each. *)
Definition example_x : list (list float) := [[1%float]; [2%float]; [3%float]].

Definition example_augment (batch : list Z) : result augmented :=
  augment 1 1 [9%float] (fun r => r)
    (Mat 1 example_x) (Mat 1 [[0%Z]; [1%Z]]) (Some (Vec [5%float])) (Vec batch).

Definition example_forward (batch : list Z) : result (tensor float) :=
  forward 1 1 2 [9%float] (fun r => r) [example_layer; example_layer]
    (fun r => r ++ r)
    (Mat 1 example_x) (Mat 1 [[0%Z]; [1%Z]]) (Some (Vec [5%float])) (Vec batch).

End Examples.

(** ** Further concrete inputs *)

Module Scenarios.

Import ReRanker Training.

(** Two nodes joined in both directions, with two node features and two
    edge features. *)
Definition wide_graph : Data :=
  mkData (Mat 2 [[1%float; 0%float]; [0%float; 1%float]])
         (Mat 2 [[0; 1]; [1; 0]]%Z)
         (Mat 2 [[5%float; 5%float]; [6%float; 6%float]])
         None None.

(** The same two nodes with a 1-D [edge_attr], one bond type per edge, as
    the ZINC dataset stores it. *)
Definition raw_graph : Data :=
  mkData (Mat 1 [[1%float]; [2%float]])
         (Mat 2 [[0; 1]; [1; 0]]%Z)
         (Vec [1%float; 1%float])
         None None.

(** A batch with targets: the two nodes of a joint graph of two one-node
    graphs, and the target of the pair. *)
Definition labelled_batch : Data :=
  mkData (Mat 1 [[1%float]; [2%float]])
         (Mat 2 [[0; 1]; [1; 0]]%Z)
         (Mat 1 [[0%float]; [0%float]])
         (Some (Vec [0; 0]%Z))
         (Some (Vec [0.5%float])).

(** A trainer for the concrete runs: the state counts the optimizer steps
    and every batch with targets has loss 1; on a batch without targets,
    [data.y.squeeze()] of line 67 raises [AttributeError]. *)
Definition counting_step (s : nat) (d : Data) : result (nat * float) :=
  match y d with
  | Some _ => Ok (S s, 1%float)
  | None => Err AttributeError
  end.

(** A loader that yields the same batches at every epoch. *)
Definition same_batches (data : list Data) (epoch : nat) : list Data := data.

End Scenarios.

Import ReRanker Encoder Examples.

(** * Properties of [build_joint_graph] *)

(** ** Concatenation of tensors *)

Lemma cat_rows {A : Type} (c : nat) (ra rb : list (list A)) :
  cat [Mat c ra; Mat c rb] 0 = Ok (Mat c (ra ++ rb)).
Proof.
  unfold cat; simpl. now rewrite Nat.eqb_refl.
Qed.

Lemma cat_cols {A : Type} (ca cb : nat) (ra rb : list (list A)) :
  length ra = length rb ->
  cat [Mat ca ra; Mat cb rb] 1 = Ok (Mat (ca + cb) (zip_app ra rb)).
Proof.
  intros Hlen. unfold cat; simpl. rewrite Hlen. now rewrite Nat.eqb_refl.
Qed.

Lemma cat_vec {A : Type} (u v : list A) :
  cat [Vec u; Vec v] 0 = Ok (Vec (u ++ v)).
Proof.
  destruct u as [|a u], v as [|b v]; unfold cat; simpl; try reflexivity.
  now rewrite app_nil_r.
Qed.

Lemma cat_legacy_empty_r {A : Type} (c : nat) (rows : list (list A)) (dim : nat) :
  cat [Mat c rows; Vec []] dim = check_dim dim (Mat c rows).
Proof. reflexivity. Qed.

Lemma zip_app_two {A : Type} (a b c d : list A) :
  zip_app [a; b] [c; d] = [a ++ c; b ++ d].
Proof. reflexivity. Qed.

(** ** The bridge *)

Lemma map_flat_map_comm {A B C : Type} (f : B -> C) (g : A -> list B) (l : list A) :
  map f (flat_map g l) = flat_map (fun a => map f (g a)) l.
Proof.
  induction l as [|a l IH]; simpl; [reflexivity|].
  now rewrite map_app, IH.
Qed.

Lemma cross_edge_list_pairs (N_q N_c : nat) :
  cross_edge_list N_q N_c = map pair_row (cross_pairs N_q N_c).
Proof.
  unfold cross_edge_list, cross_pairs.
  rewrite map_flat_map_comm. apply flat_map_ext; intros i.
  rewrite map_flat_map_comm. apply flat_map_ext; intros j. reflexivity.
Qed.

Lemma transpose_pair_rows (ps : list (Z * Z)) :
  transpose_rows 2 (map pair_row ps) = [map fst ps; map snd ps].
Proof.
  simpl. f_equal; [|f_equal].
  - induction ps as [|p ps IH]; simpl; [reflexivity|now rewrite IH].
  - induction ps as [|p ps IH]; simpl; [reflexivity|now rewrite IH].
Qed.

Lemma tensor_of_pair_rows (p : Z * Z) (ps : list (Z * Z)) :
  tensor_of_lists (map pair_row (p :: ps)) = Ok (Mat 2 (map pair_row (p :: ps))).
Proof.
  simpl. replace (forallb _ _) with true; [reflexivity|].
  symmetry. apply forallb_forall. intros r Hr.
  apply in_map_iff in Hr. destruct Hr as [q [<- _]]. reflexivity.
Qed.

Lemma cross_pairs_length (N_q N_c : nat) :
  length (cross_pairs N_q N_c) = 2 * N_q * N_c.
Proof.
  unfold cross_pairs.
  rewrite (flat_map_constant_length (c := 2 * N_c)).
  - rewrite length_seq. lia.
  - intros i _. rewrite (flat_map_constant_length (c := 2)).
    + rewrite length_seq. lia.
    + reflexivity.
Qed.

Lemma cross_pairs_nil (N_q N_c : nat) :
  N_q = 0 \/ N_c = 0 -> cross_pairs N_q N_c = [].
Proof.
  intros H. apply length_zero_iff_nil. rewrite cross_pairs_length.
  destruct H; subst; lia.
Qed.

Lemma cross_pairs_cons (N_q N_c : nat) :
  0 < N_q -> 0 < N_c -> exists p ps, cross_pairs N_q N_c = p :: ps.
Proof.
  intros Hq Hc. destruct (cross_pairs N_q N_c) as [|p ps] eqn:E.
  - apply (f_equal (@length _)) in E. rewrite cross_pairs_length in E.
    simpl in E. nia.
  - eauto.
Qed.

Lemma in_cross_pairs (N_q N_c : nat) (p : Z * Z) :
  In p (cross_pairs N_q N_c) <->
  exists i j, i < N_q /\ j < N_c /\
    (p = (Z.of_nat i, Z.of_nat (N_q + j)) \/ p = (Z.of_nat (N_q + j), Z.of_nat i)).
Proof.
  unfold cross_pairs. rewrite in_flat_map. split.
  - intros [i [Hi Hp]]. apply in_flat_map in Hp. destruct Hp as [j [Hj Hp]].
    apply in_seq in Hi, Hj. exists i, j. simpl in Hp.
    repeat split; try lia. destruct Hp as [<-|[<-|[]]]; auto.
  - intros [i [j [Hi [Hj Hp]]]]. exists i. split; [apply in_seq; lia|].
    apply in_flat_map. exists j. split; [apply in_seq; lia|].
    simpl. destruct Hp as [->| ->]; auto.
Qed.

Lemma NoDup_flat_map_disjoint {A B : Type} (f : A -> list B) (l : list A) :
  NoDup l ->
  (forall a, In a l -> NoDup (f a)) ->
  (forall a b x, In a l -> In b l -> In x (f a) -> In x (f b) -> a = b) ->
  NoDup (flat_map f l).
Proof.
  induction 1 as [|a l Hna Hnd IH]; intros Hf Hdisj; simpl; [constructor|].
  apply NoDup_app.
  - apply Hf; now left.
  - apply IH.
    + intros b Hb; apply Hf; now right.
    + intros b c y Hb Hc; apply Hdisj; now right.
  - intros y Hy Hin. apply in_flat_map in Hin. destruct Hin as [b [Hb Hyb]].
    assert (a = b) by (apply (Hdisj a b y); simpl; auto).
    subst b. contradiction.
Qed.

Lemma cross_pairs_NoDup (N_q N_c : nat) : NoDup (cross_pairs N_q N_c).
Proof.
  unfold cross_pairs. apply NoDup_flat_map_disjoint.
  - apply seq_NoDup.
  - intros i Hi. apply in_seq in Hi. apply NoDup_flat_map_disjoint.
    + apply seq_NoDup.
    + intros j _. constructor; [|constructor; [intros []|constructor]].
      intros [Heq|[]]. injection Heq; lia.
    + intros j j' p _ _ Hp Hp'. simpl in Hp, Hp'.
      destruct Hp as [<-|[<-|[]]]; destruct Hp' as [Heq|[Heq|[]]];
        injection Heq; lia.
  - intros i i' p Hi Hi' Hp Hp'. apply in_seq in Hi, Hi'.
    apply in_flat_map in Hp, Hp'.
    destruct Hp as [j [Hj Hp]], Hp' as [j' [Hj' Hp']]. simpl in Hp, Hp'.
    destruct Hp as [<-|[<-|[]]]; destruct Hp' as [Heq|[Heq|[]]];
      injection Heq; lia.
Qed.

Lemma cross_pairs_once (N_q N_c i j : nat) :
  i < N_q -> j < N_c ->
  count_occ edge_eq_dec (cross_pairs N_q N_c) (Z.of_nat i, Z.of_nat (N_q + j)) = 1 /\
  count_occ edge_eq_dec (cross_pairs N_q N_c) (Z.of_nat (N_q + j), Z.of_nat i) = 1.
Proof.
  intros Hi Hj.
  split; apply (proj1 (NoDup_count_occ' edge_eq_dec _) (cross_pairs_NoDup N_q N_c));
    apply in_cross_pairs; exists i, j; auto.
Qed.

(** ** No wrap-around on node ids *)

Lemma wrap64_small (z : Z) :
  (- 2 ^ 63 <= z < 2 ^ 63)%Z -> wrap64 z = z.
Proof.
  intros Hz. unfold wrap64. rewrite Z.mod_small; lia.
Qed.

Lemma map_shift_in_range (N k : nat) (l : list Z) :
  (Z.of_nat N + Z.of_nat k < 2 ^ 63)%Z ->
  Forall (fun v => 0 <= v < Z.of_nat N)%Z l ->
  map (fun a => wrap64 (a + Z.of_nat k)) l = map (fun a => a + Z.of_nat k)%Z l.
Proof.
  intros Hb Hl. apply map_ext_in. intros a Ha.
  rewrite Forall_forall in Hl. specialize (Hl a Ha).
  apply wrap64_small. lia.
Qed.

Lemma combine_app_same {A B : Type} (a a' : list A) (b b' : list B) :
  length a = length b ->
  combine (a ++ a') (b ++ b') = combine a b ++ combine a' b'.
Proof.
  revert b; induction a as [|u a IH]; intros [|v b] Hlen; simpl in *;
    try discriminate; [reflexivity|].
  f_equal. apply IH. lia.
Qed.

Lemma combine_map_shift (k : nat) (src dst : list Z) :
  combine (map (fun a => a + Z.of_nat k)%Z src) (map (fun a => a + Z.of_nat k)%Z dst)
  = map (shift_edge k) (combine src dst).
Proof.
  revert dst; induction src as [|u src IH]; intros [|v dst]; simpl;
    try reflexivity.
  now rewrite IH.
Qed.

Lemma combine_fst_snd {A B : Type} (ps : list (A * B)) :
  combine (map fst ps) (map snd ps) = ps.
Proof.
  induction ps as [|[a b] ps IH]; simpl; [reflexivity|now rewrite IH].
Qed.

Lemma map_fst_combine' {A B : Type} (a : list A) (b : list B) :
  length a = length b -> map fst (combine a b) = a.
Proof.
  revert b; induction a as [|u a IH]; intros [|v b] Hl; simpl in *;
    try discriminate; [reflexivity|]. f_equal. apply IH. lia.
Qed.

Lemma map_snd_combine' {A B : Type} (a : list A) (b : list B) :
  length a = length b -> map snd (combine a b) = b.
Proof.
  revert b; induction a as [|u a IH]; intros [|v b] Hl; simpl in *;
    try discriminate; [reflexivity|]. f_equal. apply IH. lia.
Qed.

Lemma size_mat_0 {A : Type} (c : nat) (rows : list (list A)) :
  size (Mat c rows) 0 = Ok (length rows).
Proof. reflexivity. Qed.

Lemma size_mat_1 {A : Type} (c : nat) (rows : list (list A)) :
  size (Mat c rows) 1 = Ok c.
Proof. reflexivity. Qed.

Lemma size_mat_last {A : Type} (c : nat) (rows : list (list A)) :
  size (Mat c rows) (-1) = Ok c.
Proof. reflexivity. Qed.

#[local] Arguments cat : simpl never.
#[local] Arguments size : simpl never.

Section JointGraph.

Variable preprocess_graph : Data -> Data.
Variables (A B : Data) (label_diff : option float).
Variables N_a N_b F E_a E_b W : nat.

Let A' := preprocess_graph A.
Let B' := preprocess_graph B.

Hypothesis graph_A : graph N_a F E_a W A'.
Hypothesis graph_B : graph N_b F E_b W B'.
Hypothesis nodes_fit : (Z.of_nat N_a + Z.of_nat N_b < 2 ^ 63)%Z.

Local Abbreviation joint_graph_of :=
  (joint_graph_of preprocess_graph A B label_diff N_a N_b F E_a E_b W).

Lemma build_joint_graph_nonempty :
  0 < N_a -> 0 < N_b ->
  build_joint_graph preprocess_graph A B label_diff = Ok joint_graph_of.
Proof.
  intros Ha Hb.
  destruct graph_A as [HxA HnA [sa [da [HeA [Hsa [Hda HrA]]]]] HaA HlA].
  destruct graph_B as [HxB HnB [sb [db [HeB [Hsb [Hdb HrB]]]]] HaB HlB].
  destruct (cross_pairs_cons Ha Hb) as [p [ps Hcp]].
  unfold build_joint_graph, joint_graph_of, num_nodes.
  fold A' B'. rewrite HxA, HxB, HeA, HeB, HaA, HaB. cbn [len].
  rewrite HnA, HnB. rewrite cat_rows. cbn [bind add_scalar map].
  rewrite cat_cols by reflexivity. cbn [bind].
  rewrite cat_rows. cbn [bind].
  rewrite cross_edge_list_pairs, Hcp, tensor_of_pair_rows. cbn [bind].
  unfold t. rewrite transpose_pair_rows. rewrite length_map.
  rewrite cat_cols by reflexivity. cbn [bind].
  rewrite !size_mat_1. cbn [bind]. unfold zeros. rewrite cat_rows. cbn [bind].
  rewrite <- Hcp. rewrite cross_pairs_length.
  apply Forall_app in HrB. destruct HrB as [Hrs Hrd].
  rewrite !(map_shift_in_range N_b N_a) by (assumption || lia).
  rewrite !zip_app_two. unfold edges, zeros, zeros_long.
  rewrite !map_app, <- combine_map_shift.
  rewrite !map_fst_combine', !map_snd_combine' by (rewrite ?length_map; lia).
  rewrite <- !app_assoc. reflexivity.
Qed.

Lemma build_joint_graph_empty :
  N_a = 0 \/ N_b = 0 ->
  build_joint_graph preprocess_graph A B label_diff = Err IndexError.
Proof.
  intros Hempty.
  destruct graph_A as [HxA HnA [sa [da [HeA [Hsa [Hda HrA]]]]] HaA HlA].
  destruct graph_B as [HxB HnB [sb [db [HeB [Hsb [Hdb HrB]]]]] HaB HlB].
  unfold build_joint_graph, num_nodes.
  fold A' B'. rewrite HxA, HxB, HeA, HeB, HaA, HaB. cbn [len].
  rewrite HnA, HnB. rewrite cat_rows. cbn [bind add_scalar map].
  rewrite cat_cols by reflexivity. cbn [bind].
  rewrite cat_rows. cbn [bind].
  rewrite cross_edge_list_pairs, (cross_pairs_nil Hempty).
  reflexivity.
Qed.

Lemma joint_graph_edge_index :
  edge_index joint_graph_of =
  Mat (E_a + E_b + 2 * N_a * N_b)
    [map fst (edges (edge_index A') ++
              map (shift_edge N_a) (edges (edge_index B')) ++
              cross_pairs N_a N_b);
     map snd (edges (edge_index A') ++
              map (shift_edge N_a) (edges (edge_index B')) ++
              cross_pairs N_a N_b)].
Proof. reflexivity. Qed.

Lemma joint_graph_edges :
  edges (edge_index joint_graph_of) =
  edges (edge_index A') ++ map (shift_edge N_a) (edges (edge_index B')) ++
  cross_pairs N_a N_b.
Proof.
  rewrite joint_graph_edge_index. cbn [edges]. apply combine_fst_snd.
Qed.

Lemma graph_edges_length (N F' E W' : nat) (d : Data) :
  graph N F' E W' d -> length (edges (edge_index d)) = E.
Proof.
  intros [_ _ [src [dst [He [Hs [Hd _]]]]] _ _]. rewrite He. cbn [edges].
  rewrite length_combine. lia.
Qed.

Lemma joint_graph_edges_length :
  length (edges (edge_index joint_graph_of)) = E_a + E_b + 2 * N_a * N_b.
Proof.
  rewrite joint_graph_edges, !length_app, length_map, cross_pairs_length.
  rewrite (graph_edges_length graph_A), (graph_edges_length graph_B). lia.
Qed.

Lemma skipn_app_exact {T : Type} (n : nat) (l l' : list T) :
  length l = n -> skipn n (l ++ l') = l'.
Proof.
  intros <-. rewrite skipn_app, skipn_all, Nat.sub_diag. reflexivity.
Qed.

Lemma joint_graph_bridge :
  edges_after (E_a + E_b) joint_graph_of = cross_pairs N_a N_b.
Proof.
  unfold edges_after. rewrite joint_graph_edges, app_assoc.
  apply skipn_app_exact. rewrite length_app, length_map.
  rewrite (graph_edges_length graph_A), (graph_edges_length graph_B). lia.
Qed.

Lemma joint_graph_bridge_attr :
  attr_rows_after (E_a + E_b) joint_graph_of =
  repeat (repeat 0%float W) (2 * N_a * N_b).
Proof.
  unfold attr_rows_after.
  change (attr_rows joint_graph_of)
    with (attr_rows A' ++ attr_rows B' ++ repeat (repeat 0%float W) (2 * N_a * N_b)).
  rewrite app_assoc. apply skipn_app_exact. rewrite length_app.
  rewrite (graph_attr_rows graph_A), (graph_attr_rows graph_B). reflexivity.
Qed.

(** C1. For graphs A (N_a nodes) and B (N_b nodes) of equal feature widths
    that both have nodes, [build_joint_graph] returns a graph whose node
    rows are A's followed by B's (N_a + N_b nodes), whose edges are A's,
    then B's with both endpoints shifted by N_a, then the bridge
    (|A.edges| + |B.edges| + 2 N_a N_b edges), and whose batch vector is the
    zero vector of length N_a + N_b.  When A or B has no node the call
    raises [IndexError] instead of returning that graph. *)
Theorem build_joint_graph_nodes_and_edges :
  (N_a = 0 \/ N_b = 0 ->
   build_joint_graph preprocess_graph A B label_diff = Err IndexError) /\
  (0 < N_a -> 0 < N_b ->
   exists g,
     build_joint_graph preprocess_graph A B label_diff = Ok g /\
     x g = Mat F (node_rows A' ++ node_rows B') /\
     num_nodes g = N_a + N_b /\
     (exists src dst,
        edge_index g = Mat (E_a + E_b + 2 * N_a * N_b) [src; dst] /\
        length src = E_a + E_b + 2 * N_a * N_b /\
        length dst = E_a + E_b + 2 * N_a * N_b) /\
     edges (edge_index g) =
       edges (edge_index A') ++
       map (shift_edge N_a) (edges (edge_index B')) ++
       cross_pairs N_a N_b /\
     length (edges (edge_index g)) = E_a + E_b + 2 * N_a * N_b /\
     batch g = Some (Vec (repeat 0%Z (N_a + N_b)))).
Proof.
  split; [apply build_joint_graph_empty|].
  intros Ha Hb. exists joint_graph_of.
  split; [now apply build_joint_graph_nonempty|].
  split; [reflexivity|].
  split.
  { unfold num_nodes, ReRanker.joint_graph_of. cbn [x len]. fold A' B'.
    rewrite length_app.
    now rewrite (graph_nodes graph_A), (graph_nodes graph_B). }
  split.
  { rewrite joint_graph_edge_index. eexists _, _. split; [reflexivity|].
    pose proof (graph_edges_length graph_A) as HA.
    pose proof (graph_edges_length graph_B) as HB.
    rewrite !length_map, !length_app, length_map, cross_pairs_length, HA, HB.
    split; lia. }
  split; [apply joint_graph_edges|].
  split; [apply joint_graph_edges_length|reflexivity].
Qed.

(** C3. For non-empty graphs A and B, the edges [build_joint_graph] adds
    after the |A.edges| + |B.edges| original ones are exactly the complete
    bipartite set in both directions: each (i, N_a+j) and each (N_a+j, i),
    i < N_a, j < N_b, occurs exactly once, nothing else occurs, and each of
    these edges has an all-zero attribute row of the edge-feature width of
    the source graphs. *)
Theorem bridge_edges_complete_bipartite :
  0 < N_a -> 0 < N_b ->
  exists g,
    build_joint_graph preprocess_graph A B label_diff = Ok g /\
    let bridge := edges_after (E_a + E_b) g in
    let bridge_attr := attr_rows_after (E_a + E_b) g in
    (forall i j, i < N_a -> j < N_b ->
       count_occ edge_eq_dec bridge (Z.of_nat i, Z.of_nat (N_a + j)) = 1 /\
       count_occ edge_eq_dec bridge (Z.of_nat (N_a + j), Z.of_nat i) = 1) /\
    (forall e, In e bridge ->
       exists i j, i < N_a /\ j < N_b /\
         (e = (Z.of_nat i, Z.of_nat (N_a + j)) \/
          e = (Z.of_nat (N_a + j), Z.of_nat i))) /\
    length bridge = 2 * N_a * N_b /\
    length bridge_attr = length bridge /\
    edge_attr g = Mat W (attr_rows g) /\
    Forall (fun row => row = repeat 0%float W) bridge_attr.
Proof.
  intros Ha Hb. exists joint_graph_of.
  split; [now apply build_joint_graph_nonempty|].
  cbv zeta. rewrite joint_graph_bridge, joint_graph_bridge_attr.
  split; [intros i j Hi Hj; now apply cross_pairs_once|].
  split; [intros e He; now apply in_cross_pairs|].
  split; [apply cross_pairs_length|].
  split; [now rewrite repeat_length, cross_pairs_length|].
  split; [reflexivity|].
  apply Forall_forall. intros row Hrow. now apply repeat_spec in Hrow.
Qed.

(** C6. When A or B has no node the bridge list is empty, and
    [build_joint_graph] raises [IndexError] ([cross_edges.size(1)] on the
    1-D tensor [torch.tensor([])]) instead of returning a graph. *)
Theorem build_joint_graph_empty_side :
  N_a = 0 \/ N_b = 0 ->
  cross_edge_list N_a N_b = [] /\
  build_joint_graph preprocess_graph A B label_diff = Err IndexError.
Proof.
  intros Hempty. split; [|now apply build_joint_graph_empty].
  rewrite cross_edge_list_pairs. now rewrite (cross_pairs_nil Hempty).
Qed.

End JointGraph.

(** * Properties of the label normalisation *)

(** ** Exact arithmetic *)







(** ** binary64 *)

Lemma float_sub_self (c : float) : (c - c = nan \/ c - c = 0)%float.
Proof.
  rewrite <- (SF2Prim_Prim2SF (c - c)), sub_spec.
  destruct (Prim2SF c) as [s|s| |s m e]; cbn.
  - right. now destruct s.
  - left. now destruct s.
  - now left.
  - right. unfold SF64sub, SFsub. rewrite Z.sub_diag. reflexivity.
Qed.

Lemma norm_label_degenerate (c : float) : norm_label c c c = nan.
Proof.
  unfold norm_label. cbn [sub mul div one two float64].
  destruct (float_sub_self c) as [-> | ->]; reflexivity.
Qed.

Lemma float_minimum_same (c : float) : minimum c c = c.
Proof.
  cbn [minimum float64]. destruct (is_nan c), (c <? c)%float; reflexivity.
Qed.

Lemma float_maximum_same (c : float) : maximum c c = c.
Proof.
  cbn [maximum float64]. destruct (is_nan c), (c <? c)%float; reflexivity.
Qed.





(** ** The normalisation as an affine map *)



(** * Properties of [build_label_diff_dataset] *)

Lemma getitem_some {A : Type} (a : list A) (i : nat) :
  i < length a -> exists v, nth_error a i = Some v /\ getitem a i = Ok v.
Proof.
  intros Hi. unfold getitem. destruct (nth_error a i) as [v|] eqn:E.
  - eauto.
  - apply nth_error_None in E. lia.
Qed.

Section Dataset.

Variable preprocess_graph : Data -> Data.
Variable rng : Type.
Variable sample2 : rng -> nat -> (nat * nat) * rng.
Variables (graphs : list Data) (labels : list float) (F W : nat).

Hypothesis sample2_distinct :
  forall s n, 2 <= n ->
    fst (fst (sample2 s n)) < n /\ snd (fst (sample2 s n)) < n /\
    fst (fst (sample2 s n)) <> snd (fst (sample2 s n)).
Hypothesis aligned : length labels = length graphs.
Hypothesis two_graphs : 2 <= length graphs.
Hypothesis molecules :
  Forall (fun g => molecule F W (preprocess_graph g)) graphs.

Lemma norm_labels_ok :
  exists norm, norm_labels labels = Ok norm /\ length norm = length labels.
Proof.
  destruct labels as [|a l] eqn:E.
  - simpl in aligned. lia.
  - eexists. split; [reflexivity|]. now rewrite length_map.
Qed.

Lemma build_joint_graph_molecules (g_i g_j : Data) (d : float) :
  In g_i graphs -> In g_j graphs ->
  exists g, build_joint_graph preprocess_graph g_i g_j (Some d) = Ok g /\
            y g = Some (Vec [float32 d]).
Proof.
  intros Hi Hj. pose proof (proj1 (Forall_forall _ _) molecules) as Hm.
  destruct (Hm _ Hi) as [Ni [Ei [Hpi [Hbi Hgi]]]].
  destruct (Hm _ Hj) as [Nj [Ej [Hpj [Hbj Hgj]]]].
  eexists. split.
  - apply (@build_joint_graph_nonempty preprocess_graph g_i g_j (Some d)
             Ni Nj F Ei Ej W Hgi Hgj); lia.
  - reflexivity.
Qed.

Lemma build_pairs_ok (norm : list float) :
  length norm = length graphs ->
  forall (k : nat) (s : rng) (acc : list Data),
  exists new s',
    build_pairs preprocess_graph sample2 graphs norm k s acc = Ok (acc ++ new, s') /\
    length new = k /\
    Forall2 (sampled_from preprocess_graph graphs norm) new
      (draws sample2 (length graphs) k s).
Proof.
  intros Hnorm. induction k as [|k IH]; intros s acc.
  - exists [], s. rewrite app_nil_r. repeat split. constructor.
  - cbn [build_pairs draws]. unfold random_sample.
    replace (length graphs <? 2) with false by (symmetry; apply Nat.ltb_ge; lia).
    cbn [bind].
    destruct (sample2_distinct s two_graphs) as [Hi [Hj Hij]].
    destruct (sample2 s (length graphs)) as [[i j] s1]. cbn [fst snd] in *.
    destruct (@getitem_some _ norm i) as [n_i [Hni ->]]; [lia|].
    destruct (@getitem_some _ norm j) as [n_j [Hnj ->]]; [lia|].
    destruct (@getitem_some _ graphs i) as [g_i [Hgi ->]]; [lia|].
    destruct (@getitem_some _ graphs j) as [g_j [Hgj ->]]; [lia|].
    cbn [bind].
    destruct (build_joint_graph_molecules g_i g_j (sub n_i n_j))
      as [g [Hg Hy]]; eauto using nth_error_In.
    rewrite Hg. cbn [bind].
    destruct (IH s1 (acc ++ [g])) as [new [s' [Hrun [Hlen Hall]]]].
    exists (g :: new), s'. rewrite Hrun, <- app_assoc. cbn [app length].
    repeat split; [now rewrite Hlen|].
    constructor; [|exact Hall].
    unfold sampled_from. cbn [fst snd].
    repeat split; try assumption. exists n_i, n_j, g_i, g_j. auto 10.
Qed.

(** C8, as the code has it.  For graphs that are molecules once
    preprocessed (well-formed, at least one node, common feature widths),
    labels aligned with them, at least two graphs, and a [random.sample]
    that returns two distinct indices of the list:
    [build_label_diff_dataset] returns exactly [num_pairs] joint graphs,
    the k-th one built from the k-th drawn pair (i, j) with i <> j, and the
    target it stores is the [torch.float] tensor of
    [norm_labels[i] - norm_labels[j]], that is the difference rounded to
    binary32. *)
Theorem build_label_diff_dataset_pairs (num_pairs : nat) (s : rng) :
  exists norm pairs s',
    norm_labels labels = Ok norm /\
    build_label_diff_dataset preprocess_graph sample2 graphs labels num_pairs s
      = Ok (pairs, s') /\
    length pairs = num_pairs /\
    Forall2 (sampled_from preprocess_graph graphs norm) pairs
      (draws sample2 (length graphs) num_pairs s).
Proof.
  destruct norm_labels_ok as [norm [Hnorm Hlen]].
  destruct (@build_pairs_ok norm (eq_trans Hlen aligned) num_pairs s [])
    as [new [s' [Hrun [Hk Hall]]]].
  exists norm, new, s'. unfold build_label_diff_dataset.
  rewrite Hnorm. cbn [bind]. auto.
Qed.

Lemma fold_minimum_same (c : float) (l : list float) :
  (forall a, In a l -> a = c) -> fold_left minimum l c = c.
Proof.
  induction l as [|a l IH]; intros Hall; [reflexivity|].
  cbn [fold_left]. rewrite (Hall a) by now left.
  rewrite float_minimum_same. apply IH. intros b Hb. apply Hall. now right.
Qed.

Lemma fold_maximum_same (c : float) (l : list float) :
  (forall a, In a l -> a = c) -> fold_left maximum l c = c.
Proof.
  induction l as [|a l IH]; intros Hall; [reflexivity|].
  cbn [fold_left]. rewrite (Hall a) by now left.
  rewrite float_maximum_same. apply IH. intros b Hb. apply Hall. now right.
Qed.

Lemma map_const_repeat {X Y : Type} (f : X -> Y) (v : Y) (l : list X) :
  (forall a, In a l -> f a = v) -> map f l = repeat v (length l).
Proof.
  induction l as [|a l IH]; intros Hall; [reflexivity|].
  cbn [map length repeat]. rewrite (Hall a) by now left.
  f_equal. apply IH. intros b Hb. apply Hall. now right.
Qed.

Lemma norm_labels_degenerate (c : float) :
  (forall a, In a labels -> a = c) ->
  norm_labels labels = Ok (repeat nan (length labels)).
Proof.
  intros Hall. destruct labels as [|a l] eqn:E.
  - simpl in aligned. lia.
  - assert (Ha : a = c) by (apply Hall; now left). subst a.
    assert (Hl : forall b, In b l -> b = c) by (intros b Hb; apply Hall; now right).
    unfold norm_labels, np_min, np_max.
    rewrite (@fold_minimum_same c l Hl), (@fold_maximum_same c l Hl). cbn [bind].
    f_equal. apply map_const_repeat. intros b Hb.
    rewrite (Hall b Hb). apply norm_label_degenerate.
Qed.

(** C7, as the code has it.  When all labels are equal nothing is raised:
    every normalised label is NaN (0/0 in binary64), and
    [build_label_diff_dataset] still builds and returns [num_pairs] pairs,
    each with a NaN target. *)
Theorem build_label_diff_dataset_degenerate (c : float) (num_pairs : nat) (s : rng) :
  (forall a, In a labels -> a = c) ->
  exists pairs s',
    norm_labels labels = Ok (repeat nan (length labels)) /\
    build_label_diff_dataset preprocess_graph sample2 graphs labels num_pairs s
      = Ok (pairs, s') /\
    length pairs = num_pairs /\
    Forall (fun g => y g = Some (Vec [nan])) pairs.
Proof.
  intros Hall. pose proof (@norm_labels_degenerate c Hall) as Hnorm.
  assert (Hlen : length (repeat nan (length labels)) = length graphs)
    by now rewrite repeat_length.
  destruct (@build_pairs_ok _ Hlen num_pairs s []) as [new [s' [Hrun [Hk Hsampled]]]].
  exists new, s'. unfold build_label_diff_dataset. rewrite Hnorm. cbn [bind].
  repeat split; try assumption.
  clear Hrun Hk. induction Hsampled as [|g ij new dr Hg _ IH]; constructor; [|exact IH].
  destruct Hg as [_ [_ [_ [n_i [n_j [g_i [g_j [Hi [Hj [_ [_ [_ Hy]]]]]]]]]]]].
  apply nth_error_In, repeat_spec in Hi. apply nth_error_In, repeat_spec in Hj.
  subst n_i n_j. exact Hy.
Qed.

End Dataset.

(** * Concrete runs of the builder and of the dataset assembly *)

Lemma pair_graph_graph : graph 2 1 2 1 (already_encoded pair_graph).
Proof.
  constructor; try reflexivity.
  exists [0; 1]%Z, [1; 0]%Z. repeat split; try reflexivity.
  repeat constructor; lia.
Qed.

Lemma path_graph_graph : graph 3 1 4 1 (already_encoded path_graph).
Proof.
  constructor; try reflexivity.
  exists [0; 1; 1; 2]%Z, [1; 0; 2; 1]%Z. repeat split; try reflexivity.
  repeat constructor; lia.
Qed.

Lemma empty_graph_graph : graph 0 1 0 1 (already_encoded empty_graph).
Proof.
  constructor; try reflexivity.
  exists [], []. repeat split; try reflexivity. constructor.
Qed.

Lemma pair_graph_molecule : molecule 1 1 (already_encoded pair_graph).
Proof. exists 2, 2. split; [lia|split; [lia|exact pair_graph_graph]]. Qed.

Lemma path_graph_molecule : molecule 1 1 (already_encoded path_graph).
Proof. exists 3, 4. split; [lia|split; [lia|exact path_graph_graph]]. Qed.

Lemma randbelow_lt (s : Z) (n : nat) : 0 < n -> randbelow s n < n.
Proof.
  intros Hn. unfold randbelow.
  pose proof (Z.mod_pos_bound s (Z.of_nat n)). lia.
Qed.

Lemma pool_sample2_distinct (s : Z) (n : nat) :
  2 <= n ->
  fst (fst (pool_sample2 s n)) < n /\ snd (fst (pool_sample2 s n)) < n /\
  fst (fst (pool_sample2 s n)) <> snd (fst (pool_sample2 s n)).
Proof.
  intros Hn. unfold pool_sample2. cbn [fst snd].
  pose proof (@randbelow_lt s n) as Hi.
  pose proof (@randbelow_lt (lcg s) (n - 1)) as Hj.
  destruct (Nat.eqb_spec (randbelow (lcg s) (n - 1)) (randbelow s n)); lia.
Qed.

(** The scenario of two and three isolated nodes: five nodes, twelve edges,
    a [12 x 1] all-zero edge-feature matrix. *)
Example joint_graph_two_three :
  exists g,
    build_joint_graph already_encoded two_nodes three_nodes None = Ok g /\
    num_nodes g = 5 /\ length (edges (edge_index g)) = 12 /\
    edge_attr g = Mat 1 (repeat [0%float] 12).
Proof. eexists. repeat split; reflexivity. Qed.

(** A graph without nodes on either side: [IndexError], no joint graph. *)
Example build_joint_graph_without_nodes :
  build_joint_graph already_encoded empty_graph path_graph None = Err IndexError /\
  build_joint_graph already_encoded path_graph empty_graph None = Err IndexError /\
  build_joint_graph already_encoded empty_graph empty_graph None = Err IndexError.
Proof. repeat split; reflexivity. Qed.

Lemma build_joint_graph_nodes_and_edges_witness :
  (2 = 0 \/ 3 = 0 ->
   build_joint_graph already_encoded pair_graph path_graph None = Err IndexError) /\
  (0 < 2 -> 0 < 3 ->
   exists g,
     build_joint_graph already_encoded pair_graph path_graph None = Ok g /\
     x g = Mat 1 (node_rows pair_graph ++ node_rows path_graph) /\
     num_nodes g = 2 + 3 /\
     (exists src dst,
        edge_index g = Mat (2 + 4 + 2 * 2 * 3) [src; dst] /\
        length src = 2 + 4 + 2 * 2 * 3 /\
        length dst = 2 + 4 + 2 * 2 * 3) /\
     edges (edge_index g) =
       edges (edge_index pair_graph) ++
       map (shift_edge 2) (edges (edge_index path_graph)) ++
       cross_pairs 2 3 /\
     length (edges (edge_index g)) = 2 + 4 + 2 * 2 * 3 /\
     batch g = Some (Vec (repeat 0%Z (2 + 3)))).
Proof.
  apply (build_joint_graph_nodes_and_edges already_encoded pair_graph path_graph
           None pair_graph_graph path_graph_graph).
  lia.
Defined.

Lemma bridge_edges_complete_bipartite_witness :
  exists g,
    build_joint_graph already_encoded pair_graph path_graph None = Ok g /\
    (forall i j, i < 2 -> j < 3 ->
       count_occ edge_eq_dec (edges_after (2 + 4) g)
         (Z.of_nat i, Z.of_nat (2 + j)) = 1 /\
       count_occ edge_eq_dec (edges_after (2 + 4) g)
         (Z.of_nat (2 + j), Z.of_nat i) = 1) /\
    (forall e, In e (edges_after (2 + 4) g) ->
       exists i j, i < 2 /\ j < 3 /\
         (e = (Z.of_nat i, Z.of_nat (2 + j)) \/
          e = (Z.of_nat (2 + j), Z.of_nat i))) /\
    length (edges_after (2 + 4) g) = 2 * 2 * 3 /\
    length (attr_rows_after (2 + 4) g) = length (edges_after (2 + 4) g) /\
    edge_attr g = Mat 1 (attr_rows g) /\
    Forall (fun row => row = repeat 0%float 1) (attr_rows_after (2 + 4) g).
Proof.
  apply (bridge_edges_complete_bipartite already_encoded pair_graph path_graph
           None pair_graph_graph path_graph_graph); lia.
Defined.

Lemma build_joint_graph_empty_side_witness :
  cross_edge_list 0 3 = [] /\
  build_joint_graph already_encoded empty_graph path_graph None = Err IndexError.
Proof.
  apply (build_joint_graph_empty_side already_encoded empty_graph path_graph
           None empty_graph_graph path_graph_graph).
  left; reflexivity.
Defined.

Lemma example_graphs_molecules :
  Forall (fun g => molecule 1 1 (already_encoded g)) example_graphs.
Proof.
  repeat constructor;
    [exact pair_graph_molecule|exact path_graph_molecule|exact pair_graph_molecule].
Qed.

Lemma example_graphs_two : 2 <= length example_graphs.
Proof. simpl; lia. Qed.

Lemma build_label_diff_dataset_pairs_witness :
  exists norm pairs s',
    norm_labels [1; 3; 5]%float = Ok norm /\
    build_label_diff_dataset already_encoded pool_sample2 example_graphs
      [1; 3; 5]%float 4 1%Z = Ok (pairs, s') /\
    length pairs = 4 /\
    Forall2 (sampled_from already_encoded example_graphs norm) pairs
      (draws pool_sample2 (length example_graphs) 4 1%Z).
Proof.
  apply (@build_label_diff_dataset_pairs already_encoded Z pool_sample2
           example_graphs [1; 3; 5]%float 1 1 pool_sample2_distinct
           eq_refl example_graphs_two example_graphs_molecules 4 1%Z).
Defined.

Lemma build_label_diff_dataset_degenerate_witness :
  exists pairs s',
    norm_labels [7; 7; 7]%float = Ok (repeat nan (length [7; 7; 7]%float)) /\
    build_label_diff_dataset already_encoded pool_sample2 example_graphs
      [7; 7; 7]%float 4 1%Z = Ok (pairs, s') /\
    length pairs = 4 /\
    Forall (fun g => y g = Some (Vec [nan])) pairs.
Proof.
  apply (@build_label_diff_dataset_degenerate already_encoded Z pool_sample2
           example_graphs [7; 7; 7]%float 1 1 pool_sample2_distinct
           eq_refl example_graphs_two example_graphs_molecules 7%float 4 1%Z).
  simpl. intros a [<-|[<-|[<-|[]]]]; reflexivity.
Defined.

(** With all labels equal to 7.0 no error is raised: the normalised labels
    are NaN and the pairs are built all the same. *)
Lemma degenerate_labels_build_pairs :
  exists pairs s',
    norm_labels [7; 7; 7]%float = Ok [nan; nan; nan] /\
    build_label_diff_dataset already_encoded pool_sample2 example_graphs
      [7; 7; 7]%float 2 1%Z = Ok (pairs, s') /\
    length pairs = 2 /\
    map y pairs = [Some (Vec [nan]); Some (Vec [nan])].
Proof. eexists _, _. repeat split; vm_compute; reflexivity. Qed.

(** The stored target is a [torch.float] tensor: for labels 0, 1, 3 and the
    drawn pair (1, 0) it holds the difference rounded to binary32, which is
    not the binary64 difference. *)
Lemma stored_target_is_rounded :
  exists g s' n_0 n_1 n_2 target,
    norm_labels [0; 1; 3]%float = Ok [n_0; n_1; n_2] /\
    draws pool_sample2 (length example_graphs) 1 1%Z = [(1, 0)] /\
    build_label_diff_dataset already_encoded pool_sample2 example_graphs
      [0; 1; 3]%float 1 1%Z = Ok ([g], s') /\
    y g = Some (Vec [target]) /\
    (target =? sub n_1 n_0)%float = false.
Proof. eexists _, _, _, _, _, _. repeat split; vm_compute; reflexivity. Qed.

(** * Properties of [GraphTransformerEncoder.forward] *)

(** ** Batch vectors and their counts *)

Lemma fold_max_ge_init (l : list Z) (a : Z) : (a <= fold_left Z.max l a)%Z.
Proof.
  revert a; induction l as [|b l IH]; intros a; simpl; [lia|].
  specialize (IH (Z.max a b)). lia.
Qed.

Lemma fold_max_upper (l : list Z) (a v : Z) :
  In v (a :: l) -> (v <= fold_left Z.max l a)%Z.
Proof.
  revert a; induction l as [|b l IH]; intros a Hin; simpl.
  - destruct Hin as [<-|[]]. lia.
  - destruct Hin as [<-|[<-|Hin]].
    + pose proof (fold_max_ge_init l (Z.max a b)). lia.
    + pose proof (fold_max_ge_init l (Z.max a b)). lia.
    + apply IH. now right.
Qed.

Lemma fold_max_in (l : list Z) (a : Z) : In (fold_left Z.max l a) (a :: l).
Proof.
  revert a; induction l as [|b l IH]; intros a; simpl; [now left|].
  destruct (IH (Z.max a b)) as [Heq|Hin].
  - rewrite <- Heq. destruct (Z.max_spec a b) as [[_ ->]|[_ ->]]; auto.
  - auto.
Qed.

Lemma batch_size_of_bounds (b : list Z) :
  b <> [] -> Forall (fun v => 0 <= v)%Z b ->
  (1 <= batch_size_of b)%Z /\
  Forall (fun v => 0 <= v < batch_size_of b)%Z b /\
  In (batch_size_of b - 1)%Z b.
Proof.
  intros Hne Hpos. destruct b as [|a l]; [contradiction|].
  unfold batch_size_of. rewrite Forall_forall in Hpos.
  split; [|split].
  - pose proof (fold_max_ge_init l a). pose proof (Hpos a (or_introl eq_refl)). lia.
  - apply Forall_forall. intros v Hv.
    pose proof (@fold_max_upper l a v Hv). pose proof (Hpos v Hv). lia.
  - replace (fold_left Z.max l a + 1 - 1)%Z with (fold_left Z.max l a) by lia.
    apply fold_max_in.
Qed.

Lemma count_occ_expand (b : list Z) (B : nat) (v : Z) :
  count_occ Z.eq_dec (expand b B) v =
  if ((0 <=? v) && (v <? Z.of_nat B))%Z then count_occ Z.eq_dec b v else 0.
Proof.
  unfold expand. induction B as [|B IH].
  - simpl. destruct (0 <=? v)%Z eqn:E1, (v <? 0)%Z eqn:E2; try reflexivity; lia.
  - rewrite seq_S, flat_map_app, count_occ_app, IH. cbn [flat_map plus].
    rewrite app_nil_r.
    destruct (Z.eq_dec (Z.of_nat B) v) as [Heq|Hneq].
    + subst v. rewrite count_occ_repeat_eq by reflexivity.
      replace ((0 <=? Z.of_nat B) && (Z.of_nat B <? Z.of_nat B))%Z with false
        by (symmetry; apply andb_false_iff; right; apply Z.ltb_ge; lia).
      replace ((0 <=? Z.of_nat B) && (Z.of_nat B <? Z.of_nat (S B)))%Z with true
        by (symmetry; apply andb_true_iff; split;
            [apply Z.leb_le|apply Z.ltb_lt]; lia).
      reflexivity.
    + rewrite count_occ_repeat_neq by congruence.
      replace (v <? Z.of_nat (S B))%Z with (v <? Z.of_nat B)%Z;
        [apply Nat.add_0_r|].
      destruct (Z.ltb_spec v (Z.of_nat B)), (Z.ltb_spec v (Z.of_nat (S B)));
        try reflexivity; lia.
Qed.

Lemma expand_permutation (b : list Z) (B : nat) :
  Forall (fun v => 0 <= v < Z.of_nat B)%Z b -> Permutation b (expand b B).
Proof.
  intros Hrange. apply (Permutation_count_occ Z.eq_dec). intros v.
  rewrite count_occ_expand.
  destruct ((0 <=? v) && (v <? Z.of_nat B))%Z eqn:E; [reflexivity|].
  apply count_occ_not_In. intros Hin.
  rewrite Forall_forall in Hrange. specialize (Hrange v Hin).
  apply andb_false_iff in E. destruct E as [E|E]; lia.
Qed.

Lemma expand_sorted (b : list Z) (B : nat) : StronglySorted Z.le (expand b B).
Proof.
  unfold expand. induction B as [|B IH]; [constructor|].
  rewrite seq_S, flat_map_app. cbn [flat_map plus]. rewrite app_nil_r.
  set (l := flat_map _ (seq 0 B)) in *.
  assert (Hl : Forall (fun v => v < Z.of_nat B)%Z l).
  { apply Forall_forall. intros v Hv. subst l. apply in_flat_map in Hv.
    destruct Hv as [i [Hi Hv]]. apply repeat_spec in Hv. apply in_seq in Hi. lia. }
  clearbody l. induction IH as [|a l Hs IHs Ha]; simpl.
  - induction (count_occ Z.eq_dec b (Z.of_nat B)) as [|c IHc]; simpl;
      constructor; [assumption|].
    apply Forall_forall. intros v Hv. apply repeat_spec in Hv. lia.
  - inversion Hl as [|? ? Hlt Hl']; subst. constructor; [now apply IHs|].
    apply Forall_app. split; [assumption|].
    apply Forall_forall. intros v Hv. apply repeat_spec in Hv. lia.
Qed.

Lemma sorted_permutation_eq (l l' : list Z) :
  StronglySorted Z.le l -> StronglySorted Z.le l' -> Permutation l l' -> l = l'.
Proof.
  intros Hs; revert l'; induction Hs as [|a t Hs IH Ha]; intros l' Hs' Hp.
  - now apply Permutation_nil in Hp.
  - destruct Hs' as [|a' t' Hs' Ha'].
    + apply Permutation_sym, Permutation_nil in Hp. discriminate.
    + assert (Haa : a = a').
      { rewrite Forall_forall in Ha, Ha'.
        assert (H1 : In a (a' :: t')) by (eapply Permutation_in; [exact Hp|now left]).
        assert (H2 : In a' (a :: t))
          by (eapply Permutation_in; [apply Permutation_sym; exact Hp|now left]).
        destruct H1 as [H1|H1]; [now symmetry|].
        destruct H2 as [H2|H2]; [assumption|].
        specialize (Ha _ H2). specialize (Ha' _ H1). lia. }
      subst a'. f_equal. apply IH; [assumption|].
      now apply Permutation_cons_inv in Hp.
Qed.

Lemma sorted_batch_expand (b : list Z) (B : nat) :
  Forall (fun v => 0 <= v < Z.of_nat B)%Z b -> Sorted Z.le b -> expand b B = b.
Proof.
  intros Hrange Hs. symmetry. apply sorted_permutation_eq.
  - apply Sorted_StronglySorted; [|assumption]. intros u v w; apply Z.le_trans.
  - apply expand_sorted.
  - now apply expand_permutation.
Qed.

(** ** The tensor operations of the augmentation *)

Lemma arange_length (a b : Z) : length (arange a b) = Z.to_nat (b - a).
Proof. unfold arange. now rewrite length_map, length_seq. Qed.

Lemma arange_from (a : Z) (k : nat) :
  arange a (a + Z.of_nat k) = map (fun i => a + Z.of_nat i)%Z (seq 0 k).
Proof.
  unfold arange. replace (a + Z.of_nat k - a)%Z with (Z.of_nat k) by lia.
  now rewrite Nat2Z.id.
Qed.

Lemma arange_nth (a b : Z) (q : nat) :
  q < Z.to_nat (b - a) -> nth_error (arange a b) q = Some (a + Z.of_nat q)%Z.
Proof.
  intros Hq. unfold arange. rewrite nth_error_map.
  rewrite (nth_error_nth' _ 0) by now rewrite length_seq.
  now rewrite seq_nth.
Qed.

Lemma combine_map_same {A B C : Type} (f : A -> B) (g : A -> C) (l : list A) :
  combine (map f l) (map g l) = map (fun a => (f a, g a)) l.
Proof. induction l as [|a l IH]; simpl; [reflexivity|now rewrite IH]. Qed.

Lemma flat_map_map_comp {A B C : Type} (f : A -> B) (g : B -> list C) (l : list A) :
  flat_map g (map f l) = flat_map (fun a => g (f a)) l.
Proof. induction l as [|a l IH]; simpl; [reflexivity|now rewrite IH]. Qed.

Lemma map_repeat_elt {A B : Type} (f : A -> B) (a : A) (k : nat) :
  map f (repeat a k) = repeat (f a) k.
Proof. induction k as [|k IH]; simpl; [reflexivity|now rewrite IH]. Qed.

Lemma no_negative_counts (b : list Z) (ks : list Z) :
  existsb (fun r => r <? 0)%Z
    (map (fun k => Z.of_nat (count_occ Z.eq_dec b k)) ks) = false.
Proof.
  destruct (existsb _ _) eqn:E; [|reflexivity].
  apply existsb_exists in E. destruct E as [r [Hr Hneg]].
  apply in_map_iff in Hr. destruct Hr as [k [<- _]].
  apply Z.ltb_lt in Hneg. lia.
Qed.

Lemma no_negative_ids (b : list Z) :
  Forall (fun v => 0 <= v)%Z b -> existsb (fun v => v <? 0)%Z b = false.
Proof.
  intros Hpos. destruct (existsb _ _) eqn:E; [|reflexivity].
  apply existsb_exists in E. destruct E as [v [Hv Hneg]].
  rewrite Forall_forall in Hpos. specialize (Hpos v Hv).
  apply Z.ltb_lt in Hneg. lia.
Qed.

Lemma repeat_interleave_bincount (N : nat) (b : list Z) (B : nat) :
  repeat_interleave
    (arange (Z.of_nat N) (Z.of_nat N + Z.of_nat B))
    (map (fun k => Z.of_nat (count_occ Z.eq_dec b k)) (arange 0 (Z.of_nat B)))
  = Ok (map (fun v => Z.of_nat N + v)%Z (expand b B)).
Proof.
  unfold repeat_interleave. rewrite no_negative_counts.
  rewrite length_map, !arange_length.
  replace (Z.to_nat (Z.of_nat B - 0)) with (Z.to_nat (Z.of_nat N + Z.of_nat B - Z.of_nat N))
    by lia.
  rewrite Nat.eqb_refl. f_equal.
  rewrite arange_from. change (Z.of_nat B) with (0 + Z.of_nat B)%Z at 1.
  rewrite arange_from, map_map, combine_map_same, flat_map_map_comp.
  unfold expand. rewrite map_flat_map_comm. apply flat_map_ext. intros i.
  cbn [fst snd]. rewrite Nat2Z.id, map_repeat_elt. reflexivity.
Qed.

Lemma expand_length (b : list Z) (B : nat) :
  Forall (fun v => 0 <= v < Z.of_nat B)%Z b -> length (expand b B) = length b.
Proof.
  intros Hrange. symmetry. now apply Permutation_length, expand_permutation.
Qed.

Lemma stack_same_length {A : Type} (u v : list A) :
  length u = length v -> stack u v = Ok (Mat (length u) [u; v]).
Proof. intros Hlen. unfold stack. now rewrite Hlen, Nat.eqb_refl. Qed.

Lemma repeat_rows_ok {A : Type} (row : list A) (k : Z) :
  (0 <= k < 2 ^ 63)%Z ->
  repeat_rows row k = Ok (Mat (length row) (repeat row (Z.to_nat k))).
Proof.
  intros Hk. unfold repeat_rows.
  destruct (Z.ltb_spec k 0); [lia|].
  destruct (Z.leb_spec (2 ^ 63) k); [lia|reflexivity].
Qed.

Lemma linear_rows (i o : nat) (f : list float -> list float) (rows : list (list float)) :
  linear i o f (Mat i rows) = Ok (Mat o (map f rows)).
Proof. unfold linear. now rewrite Nat.eqb_refl. Qed.

Lemma bincount_ok (b : list Z) :
  b <> [] -> Forall (fun v => 0 <= v)%Z b ->
  bincount (Vec b) =
  Ok (map (fun k => Z.of_nat (count_occ Z.eq_dec b k)) (arange 0 (batch_size_of b))).
Proof.
  intros Hne Hpos. destruct b as [|a l]; [contradiction|].
  unfold bincount. now rewrite (no_negative_ids Hpos).
Qed.

Lemma max_item_ok (b : list Z) :
  b <> [] -> max_item (Vec b) = Ok (batch_size_of b - 1)%Z.
Proof.
  intros Hne. destruct b as [|a l]; [contradiction|].
  unfold max_item, batch_size_of. cbn [elements]. f_equal. lia.
Qed.

Lemma combine_swap (u v : list Z) :
  combine v u = map reverse_edge (combine u v).
Proof.
  revert v; induction u as [|a u IH]; intros [|c v]; simpl; try reflexivity.
  now rewrite IH.
Qed.

Lemma nth_error_combine_some {A B : Type} (u : list A) (v : list B)
  (q : nat) (a : A) (c : B) :
  nth_error u q = Some a -> nth_error v q = Some c ->
  nth_error (combine u v) q = Some (a, c).
Proof.
  revert v q; induction u as [|a' u IH]; intros [|c' v] [|q] Hu Hv;
    simpl in *; try discriminate.
  - now injection Hu as ->; injection Hv as ->.
  - now apply IH.
Qed.


Section Augmentation.

Variables in_channels hidden_channels out_channels : nat.
Variable virtual_token : list float.
Variable input_proj : list float -> list float.
Variable layers : list layer.
Variable output_proj : list float -> list float.

Variables (xs : list (list float)) (E : nat) (src dst : list Z).
Variables (attr : tensor float) (W : nat) (ea : list (list float)) (b : list Z).

Hypothesis token_width : length virtual_token = hidden_channels.
Hypothesis src_length : length src = E.
Hypothesis dst_length : length dst = E.
Hypothesis attr_shape : promote attr = Mat W ea.
Hypothesis batch_entries : b <> [].
Hypothesis batch_ids : Forall (fun v => 0 <= v)%Z b.
(** max(batch) + 1 fits a signed 64-bit integer: no instance id is
    2^63 - 1, the largest entry a [torch.long] tensor can hold. *)
Hypothesis batch_fits : (batch_size_of b < 2 ^ 63)%Z.

Local Abbreviation N := (length xs).
Local Abbreviation n := (length b).
Local Abbreviation B := (batch_size_of b).
Local Abbreviation the_augmented :=
  (augmented_of hidden_channels virtual_token input_proj xs E src dst W ea b).
Local Abbreviation run_augment :=
  (augment in_channels hidden_channels virtual_token input_proj
     (Mat in_channels xs) (Mat E [src; dst]) (Some attr) (Vec b)).

Lemma augment_ok : run_augment = Ok the_augmented.
Proof.
  destruct (batch_size_of_bounds batch_entries batch_ids) as [HB [Hrange _]].
  unfold augment. rewrite linear_rows. cbn [bind option_map].
  rewrite attr_shape, (max_item_ok batch_entries). cbn [bind].
  replace (batch_size_of b - 1 + 1)%Z with (batch_size_of b) by lia.
  rewrite repeat_rows_ok by lia. cbn [bind]. rewrite token_width, cat_rows.
  cbn [bind]. rewrite size_mat_0. cbn [bind].
  rewrite (bincount_ok batch_entries batch_ids). cbn [bind len].
  rewrite length_app, length_map, repeat_length.
  replace (Z.of_nat (length xs + Z.to_nat (batch_size_of b)) - batch_size_of b)%Z
    with (Z.of_nat (length xs)) by lia.
  replace (Z.of_nat (length xs + Z.to_nat (batch_size_of b)))
    with (Z.of_nat (length xs) + Z.of_nat (Z.to_nat (batch_size_of b)))%Z by lia.
  replace (arange 0 (batch_size_of b))
    with (arange 0 (Z.of_nat (Z.to_nat (batch_size_of b))))
    by (f_equal; lia).
  rewrite repeat_interleave_bincount. cbn [bind].
  assert (Hlen : length (map (fun v => (Z.of_nat (length xs) + v)%Z)
                          (expand b (Z.to_nat (batch_size_of b))))
                 = length (arange 0 (Z.of_nat (length b)))).
  { rewrite length_map, arange_length, expand_length; [lia|].
    eapply Forall_impl; [|exact Hrange]. cbn beta. intros v Hv. lia. }
  rewrite (stack_same_length _ _ Hlen). cbn [bind].
  rewrite cat_cols by reflexivity. cbn [bind]. rewrite zip_app_two.
  cbn [select nth_error bind].
  rewrite stack_same_length by (rewrite !length_app; lia). cbn [bind].
  rewrite cat_cols by reflexivity. cbn [bind]. rewrite zip_app_two.
  rewrite size_mat_1, size_mat_last. cbn [bind]. unfold zeros.
  rewrite cat_rows. cbn [bind]. rewrite cat_rows. cbn [bind].
  rewrite cat_vec. cbn [bind].
  unfold augmented_of. rewrite length_app, !Hlen, dst_length, arange_length.
  replace (Z.to_nat (Z.of_nat (length b) - 0)) with (length b) by lia.
  replace (Z.of_nat (Z.to_nat (batch_size_of b))) with (batch_size_of b) by lia.
  reflexivity.
Qed.

Local Abbreviation virtual_src :=
  (map (fun v => Z.of_nat N + v)%Z (expand b (Z.to_nat B))).
Local Abbreviation nodes := (arange 0 (Z.of_nat n)).
Local Abbreviation forward_edges :=
  (combine src dst ++ combine virtual_src nodes).

Lemma batch_range :
  Forall (fun v => 0 <= v < Z.of_nat (Z.to_nat B))%Z b.
Proof.
  destruct (batch_size_of_bounds batch_entries batch_ids) as [HB [Hrange _]].
  eapply Forall_impl; [|exact Hrange]. cbn beta. intros v Hv. lia.
Qed.

Lemma virtual_src_length : length virtual_src = n.
Proof. rewrite length_map. apply expand_length, batch_range. Qed.

Lemma nodes_length : length nodes = n.
Proof. rewrite arange_length. lia. Qed.

Lemma forward_edges_length : length forward_edges = E + n.
Proof.
  rewrite length_app, !length_combine, src_length, dst_length.
  rewrite virtual_src_length, nodes_length. lia.
Qed.

Lemma augmented_edges :
  edges (aug_edge_index the_augmented) =
  forward_edges ++ map reverse_edge forward_edges.
Proof.
  unfold augmented_of. cbn [aug_edge_index edges].
  rewrite combine_app_same
    by (rewrite !length_app, virtual_src_length, nodes_length; lia).
  rewrite !combine_app_same by lia.
  rewrite map_app, <- !combine_swap. reflexivity.
Qed.

Lemma augmented_virtual_edges :
  virtual_edges_of E n the_augmented = combine virtual_src nodes.
Proof.
  unfold virtual_edges_of. rewrite augmented_edges, <- app_assoc.
  rewrite skipn_app_exact by (rewrite length_combine; lia).
  rewrite firstn_app, firstn_all2
    by (rewrite length_combine, virtual_src_length, nodes_length; lia).
  rewrite length_combine, virtual_src_length, nodes_length.
  replace (n - Nat.min n n) with 0 by lia. cbn [firstn]. apply app_nil_r.
Qed.

Lemma sorted_virtual_src : Sorted Z.le b -> virtual_src = map (fun v => Z.of_nat N + v)%Z b.
Proof.
  intros Hs. now rewrite (@sorted_batch_expand b (Z.to_nat B) batch_range Hs).
Qed.

(** C2, as the code has it.  For instance ids from 0 to 2^63 - 2 (so that
    max(batch) + 1 fits 64 bits and [virtual_token.repeat] accepts it), the
    augmented edge set is bidirectional: with
    every edge (u, v), original or virtual, it holds (v, u).  The virtual
    tokens are the rows appended after the N node rows, token k at node
    N + k; when the batch vector is sorted in non-decreasing order, every
    real node q is the target of the edge (N + batch[q], q) from the virtual
    token of its own instance. *)
Theorem virtual_token_edges_bidirectional :
  exists a,
    run_augment = Ok a /\
    aug_x a = Mat hidden_channels
                (map input_proj xs ++ repeat virtual_token (Z.to_nat B)) /\
    (forall u v, In (u, v) (edges (aug_edge_index a)) ->
                 In (v, u) (edges (aug_edge_index a))) /\
    (Sorted Z.le b ->
     forall q k, nth_error b q = Some k ->
       In (Z.of_nat N + k, Z.of_nat q)%Z (edges (aug_edge_index a))).
Proof.
  exists the_augmented. split; [apply augment_ok|]. split; [reflexivity|].
  rewrite augmented_edges. split.
  - intros u v Hin. apply in_app_iff. apply in_app_iff in Hin.
    destruct Hin as [Hin|Hin].
    + right. apply in_map_iff. exists (u, v). auto.
    + left. apply in_map_iff in Hin. destruct Hin as [[u' v'] [Heq Hin]].
      unfold reverse_edge in Heq. cbn [fst snd] in Heq.
      injection Heq as <- <-. exact Hin.
  - intros Hs q k Hq. apply in_app_iff. left. apply in_app_iff. right.
    apply (@nth_error_In _ _ q). rewrite (sorted_virtual_src Hs).
    apply nth_error_combine_some.
    + now rewrite nth_error_map, Hq.
    + assert (Hlt : q < n) by (apply nth_error_Some; congruence).
      rewrite arange_nth by lia. f_equal.
Qed.

Local Abbreviation zero_rows := (repeat (repeat 0%float W) n).

Lemma nth_error_app_shift {A : Type} (l l' : list A) (p : nat) :
  nth_error (l ++ l') (length l + p) = nth_error l' p.
Proof.
  rewrite nth_error_app2 by lia. f_equal. lia.
Qed.

(** C10.  After augmentation of E input edges and n real nodes (instance
    ids from 0 to 2^63 - 2, which is what the augmentation accepts), the
    edge-attribute matrix has one row per edge-index column, 2 * (E + n);
    the input rows come first, the rows of the n virtual-token edges
    (positions E .. E+n-1, edge q pointing to node q) are all zeros of the
    input width W, and the second half repeats it all: position E + n + p
    holds the reverse of edge p and the same attribute row as position p. *)
Theorem augmented_edge_attr_rows :
  length ea = E ->
  exists a r0 r1 rows,
    run_augment = Ok a /\
    aug_edge_index a = Mat (2 * (E + n)) [r0; r1] /\
    length r0 = 2 * (E + n) /\ length r1 = 2 * (E + n) /\
    aug_edge_attr a = Mat W rows /\
    length rows = 2 * (E + n) /\
    (forall p, p < E -> nth_error rows p = nth_error ea p) /\
    (forall q, q < n ->
       nth_error rows (E + q) = Some (repeat 0%float W) /\
       exists v, nth_error (edges (aug_edge_index a)) (E + q) = Some (v, Z.of_nat q)) /\
    (forall p, p < E + n ->
       nth_error rows (E + n + p) = nth_error rows p /\
       nth_error (edges (aug_edge_index a)) (E + n + p) =
       option_map reverse_edge (nth_error (edges (aug_edge_index a)) p)).
Proof.
  intros Hea.
  assert (Hhalf : length (ea ++ zero_rows) = E + n)
    by (rewrite length_app, repeat_length; lia).
  exists the_augmented. eexists _, _, _.
  split; [apply augment_ok|].
  split; [unfold augmented_of; cbn [aug_edge_index];
          replace (2 * (E + n)) with (E + n + (E + n)) by lia; reflexivity|].
  split; [rewrite !length_app, virtual_src_length, nodes_length; lia|].
  split; [rewrite !length_app, virtual_src_length, nodes_length; lia|].
  split; [reflexivity|].
  split; [rewrite length_app, Hhalf; lia|].
  split; [|split].
  - intros p Hp. rewrite <- app_assoc. apply nth_error_app1. lia.
  - intros q Hq. split.
    + rewrite <- app_assoc, <- Hea. rewrite nth_error_app_shift.
      rewrite nth_error_app1 by (rewrite repeat_length; lia).
      now apply nth_error_repeat.
    + rewrite augmented_edges, <- app_assoc.
      destruct (nth_error virtual_src q) as [v|] eqn:Ev.
      * exists v. rewrite nth_error_app2 by (rewrite length_combine; lia).
        replace (E + q - length (combine src dst)) with q
          by (rewrite length_combine; lia).
        rewrite nth_error_app1
          by (rewrite length_combine, virtual_src_length, nodes_length; lia).
        apply nth_error_combine_some; [assumption|].
        rewrite arange_nth by lia. f_equal.
      * apply nth_error_None in Ev. rewrite virtual_src_length in Ev. lia.
  - intros p Hp. split.
    + rewrite <- Hhalf, nth_error_app_shift. symmetry. apply nth_error_app1. lia.
    + rewrite augmented_edges, <- forward_edges_length, nth_error_app_shift.
      rewrite nth_error_app1 by (rewrite forward_edges_length; lia).
      apply nth_error_map.
Qed.

(** The layers keep one row of width [hidden_channels] per node. *)
Hypothesis layers_keep_nodes :
  Forall (fun l : layer =>
            forall rows ei attrs, exists rows',
              l (Mat hidden_channels rows) ei attrs = Mat hidden_channels rows' /\
              length rows' = length rows) layers.

Local Abbreviation run_forward :=
  (forward in_channels hidden_channels out_channels virtual_token input_proj
     layers output_proj (Mat in_channels xs) (Mat E [src; dst]) (Some attr) (Vec b)).

Lemma run_layers_rows :
  exists final,
    run_layers layers the_augmented = Mat hidden_channels final /\
    length final = N + Z.to_nat B.
Proof.
  unfold run_layers.
  set (ei := aug_edge_index the_augmented). set (attrs := aug_edge_attr the_augmented).
  assert (Hstart : exists rows, aug_x the_augmented = Mat hidden_channels rows /\
                                length rows = N + Z.to_nat B).
  { eexists. split; [reflexivity|]. now rewrite length_app, length_map, repeat_length. }
  clearbody ei attrs. revert Hstart. generalize (aug_x the_augmented).
  induction layers_keep_nodes as [|l ls Hl Hls IH]; intros x0 [rows [-> Hrows]].
  - exists rows. auto.
  - cbn [fold_left]. apply IH; [exact Hls|].
    destruct (Hl rows ei attrs) as [rows' [Heq Hlen]].
    exists rows'. split; [exact Heq|lia].
Qed.

Lemma forward_ok :
  exists final,
    run_layers layers the_augmented = Mat hidden_channels final /\
    length final = N + Z.to_nat B /\
    run_forward = Ok (Mat out_channels (map output_proj (skipn N final))) /\
    length (map output_proj (skipn N final)) = Z.to_nat B.
Proof.
  destruct (batch_size_of_bounds batch_entries batch_ids) as [HB _].
  destruct run_layers_rows as [final [Hrun Hlen]].
  exists final. split; [assumption|]. split; [assumption|]. split.
  - unfold forward. rewrite augment_ok. cbn [bind]. rewrite Hrun.
    cbn [aug_batch_size augmented_of slice]. rewrite linear_rows.
    do 2 f_equal. unfold slice_from.
    destruct (Z.ltb_spec (- batch_size_of b) 0); [|lia].
    do 2 f_equal. lia.
  - rewrite length_map, length_skipn. lia.
Qed.

Lemma dense_batch_size (Bd : Z) : dense b Bd -> B = Bd.
Proof.
  intros Hd. destruct (batch_size_of_bounds batch_entries batch_ids) as [HB [Hrange Hmax]].
  apply Hd in Hmax.
  assert (Hin : In (Bd - 1)%Z b) by (apply Hd; lia).
  rewrite Forall_forall in Hrange. specialize (Hrange _ Hin). lia.
Qed.

Lemma dense_num_instances (Bd : Z) : dense b Bd -> num_instances b = Z.to_nat Bd.
Proof.
  intros Hd. unfold num_instances.
  rewrite <- (Z.sub_0_r Bd), <- arange_length.
  apply Permutation_length, NoDup_Permutation.
  - apply NoDup_nodup.
  - unfold arange. apply NoDup_map_NoDup_ForallPairs; [|apply seq_NoDup].
    intros i j _ _ Hij. lia.
  - intros v. rewrite nodup_In, (Hd v). unfold arange. rewrite in_map_iff. split.
    + intros Hv. exists (Z.to_nat v). split; [lia|]. apply in_seq. lia.
    + intros [i [<- Hi]]. apply in_seq in Hi. lia.
Qed.

(** A dense batch vector has no more instances than entries, so that its
    batch size fits 64 bits whenever its length does. *)
Lemma dense_batch_fits (Bd : Z) :
  dense b Bd -> (Z.of_nat (length b) < 2 ^ 63)%Z -> (B < 2 ^ 63)%Z.
Proof.
  intros Hd Hlen. pose proof (dense_num_instances Hd) as Hnum.
  rewrite (dense_batch_size Hd).
  assert (Hle : num_instances b <= length b).
  { unfold num_instances. apply NoDup_incl_length; [apply NoDup_nodup|].
    intros v Hv. now apply nodup_In in Hv. }
  destruct (batch_size_of_bounds batch_entries batch_ids) as [HB _].
  rewrite (dense_batch_size Hd) in HB. lia.
Qed.

(** C4.  For a batch vector over the dense range 0 .. B-1, [forward]
    returns exactly B rows, B being the number of distinct instance ids;
    row k is the output projection of the final representation of node
    N + k, the k-th appended virtual token, to which the extended batch
    vector assigns instance k; a constant-zero batch vector gives one
    row. *)
Theorem forward_rows_per_instance (Bd : Z) :
  dense b Bd ->
  exists a final out,
    run_augment = Ok a /\
    aug_x a = Mat hidden_channels
                (map input_proj xs ++ repeat virtual_token (Z.to_nat Bd)) /\
    aug_batch a = Vec (b ++ arange 0 Bd) /\
    run_layers layers a = Mat hidden_channels final /\
    length final = N + Z.to_nat Bd /\
    run_forward = Ok (Mat out_channels out) /\
    length out = num_instances b /\
    num_instances b = Z.to_nat Bd /\
    (forall k, k < Z.to_nat Bd ->
       nth_error out k = option_map output_proj (nth_error final (N + k))) /\
    (Forall (fun v => v = 0%Z) b -> length out = 1).
Proof.
  intros Hd. pose proof (dense_batch_size Hd) as HB.
  pose proof (dense_num_instances Hd) as Hnum.
  destruct forward_ok as [final [Hrun [Hlen [Hfwd Hout]]]].
  exists the_augmented, final, (map output_proj (skipn N final)).
  rewrite <- HB.
  split; [apply augment_ok|]. split; [reflexivity|]. split; [reflexivity|].
  split; [assumption|]. split; [assumption|]. split; [assumption|].
  split; [rewrite Hnum, <- HB; assumption|].
  split; [rewrite Hnum, HB; reflexivity|].
  split.
  - intros k Hk. now rewrite nth_error_map, nth_error_skipn.
  - intros Hzero. rewrite Hout.
    destruct (batch_size_of_bounds batch_entries batch_ids) as [_ [_ Hmax]].
    rewrite Forall_forall in Hzero. specialize (Hzero _ Hmax). lia.
Qed.

(** C5, as the code has it.  For instance ids from 0 to 2^63 - 2, an
    instance k below the inferred batch size with no real node raises
    nothing: [forward] returns its max(batch) + 1 rows, row k among them,
    and no virtual-token edge starts at the virtual token N + k of that
    instance.  (An id of 2^63 - 1 is refused, with or without an empty
    instance, by [virtual_token.repeat].) *)
Theorem forward_with_empty_instance (k : Z) :
  (0 <= k < B)%Z -> instance_size b k = 0 ->
  exists a out,
    run_augment = Ok a /\
    run_forward = Ok (Mat out_channels out) /\
    length out = Z.to_nat B /\
    Z.to_nat k < length out /\
    (forall e, In e (virtual_edges_of E n a) -> fst e <> (Z.of_nat N + k)%Z).
Proof.
  intros Hk Hempty.
  destruct forward_ok as [final [Hrun [Hlen [Hfwd Hout]]]].
  exists the_augmented, (map output_proj (skipn N final)).
  split; [apply augment_ok|]. split; [assumption|]. split; [assumption|].
  split; [rewrite Hout; lia|].
  intros [u v] Hin Heq. cbn [fst] in Heq. subst u.
  rewrite augmented_virtual_edges in Hin. apply in_combine_l in Hin.
  apply in_map_iff in Hin. destruct Hin as [k' [Hk' Hin]].
  assert (k' = k) by lia. subst k'.
  apply (Permutation_in _ (Permutation_sym
           (@expand_permutation b (Z.to_nat B) batch_range))) in Hin.
  apply (count_occ_In Z.eq_dec) in Hin. unfold instance_size in Hempty. lia.
Qed.

End Augmentation.

(** ** Concrete runs of the encoder *)

Lemma example_layers_keep_nodes :
  Forall (fun l : layer =>
            forall rows ei attrs, exists rows',
              l (Mat 1 rows) ei attrs = Mat 1 rows' /\ length rows' = length rows)
         [example_layer; example_layer].
Proof.
  repeat constructor; intros rows ei attrs; eexists; (split; [reflexivity|]);
    apply length_map.
Qed.

Lemma example_batch_sorted : Sorted Z.le [0; 0; 1]%Z.
Proof. repeat constructor; lia. Qed.

Lemma example_batch_dense : dense [0; 0; 1]%Z 2.
Proof. intros k. simpl. lia. Qed.

Lemma virtual_token_edges_bidirectional_witness :
  exists a,
    example_augment [0; 0; 1]%Z = Ok a /\
    (forall u v, In (u, v) (edges (aug_edge_index a)) ->
                 In (v, u) (edges (aug_edge_index a))) /\
    (forall q k, nth_error [0; 0; 1]%Z q = Some k ->
       In (3 + k, Z.of_nat q)%Z (edges (aug_edge_index a))).
Proof.
  destruct (@virtual_token_edges_bidirectional 1 1 [9%float] (fun r => r)
              example_x 1 [0%Z] [1%Z] (Vec [5%float]) 1 [[5%float]] [0; 0; 1]%Z)
    as [a [Hrun [_ [Hsym Hvirt]]]].
  - reflexivity.
  - reflexivity.
  - reflexivity.
  - reflexivity.
  - discriminate.
  - repeat constructor; lia.
  - reflexivity.
  - exists a. split; [exact Hrun|]. split; [exact Hsym|].
    exact (Hvirt example_batch_sorted).
Defined.

(** With the batch vector [1, 0, 1] node 0 belongs to instance 1, whose
    virtual token is node 3 + 1, and no edge joins the two. *)
Lemma unsorted_batch_misses_virtual_edge :
  exists a,
    example_augment [1; 0; 1]%Z = Ok a /\
    nth_error [1; 0; 1]%Z 0 = Some 1%Z /\
    ~ In (3 + 1, 0)%Z (edges (aug_edge_index a)).
Proof.
  eexists. split; [vm_compute; reflexivity|]. split; [reflexivity|].
  cbn [aug_edge_index edges combine In]. intros H.
  repeat (destruct H as [H|H]; [discriminate H|]). exact H.
Qed.

Lemma augmented_edge_attr_rows_witness :
  exists a r0 r1 rows,
    example_augment [0; 0; 1]%Z = Ok a /\
    aug_edge_index a = Mat (2 * (1 + 3)) [r0; r1] /\
    length r0 = 2 * (1 + 3) /\ length r1 = 2 * (1 + 3) /\
    aug_edge_attr a = Mat 1 rows /\
    length rows = 2 * (1 + 3) /\
    (forall p, p < 1 -> nth_error rows p = nth_error [[5%float]] p) /\
    (forall q, q < 3 ->
       nth_error rows (1 + q) = Some (repeat 0%float 1) /\
       exists v, nth_error (edges (aug_edge_index a)) (1 + q) = Some (v, Z.of_nat q)) /\
    (forall p, p < 1 + 3 ->
       nth_error rows (1 + 3 + p) = nth_error rows p /\
       nth_error (edges (aug_edge_index a)) (1 + 3 + p) =
       option_map reverse_edge (nth_error (edges (aug_edge_index a)) p)).
Proof.
  apply (@augmented_edge_attr_rows 1 1 [9%float] (fun r => r)
           example_x 1 [0%Z] [1%Z] (Vec [5%float]) 1 [[5%float]] [0; 0; 1]%Z).
  - reflexivity.
  - reflexivity.
  - reflexivity.
  - reflexivity.
  - discriminate.
  - repeat constructor; lia.
  - reflexivity.
  - reflexivity.
Defined.

Lemma forward_rows_per_instance_witness :
  exists a final out,
    example_augment [0; 0; 1]%Z = Ok a /\
    aug_x a = Mat 1 (map (fun r => r) example_x ++ repeat [9%float] (Z.to_nat 2)) /\
    aug_batch a = Vec ([0; 0; 1]%Z ++ arange 0 2) /\
    run_layers [example_layer; example_layer] a = Mat 1 final /\
    length final = length example_x + Z.to_nat 2 /\
    example_forward [0; 0; 1]%Z = Ok (Mat 2 out) /\
    length out = num_instances [0; 0; 1]%Z /\
    num_instances [0; 0; 1]%Z = Z.to_nat 2 /\
    (forall k, k < Z.to_nat 2 ->
       nth_error out k =
       option_map (fun r => r ++ r) (nth_error final (length example_x + k))) /\
    (Forall (fun v => v = 0%Z) [0; 0; 1]%Z -> length out = 1).
Proof.
  apply (@forward_rows_per_instance 1 1 2 [9%float] (fun r => r)
           [example_layer; example_layer] (fun r => r ++ r)
           example_x 1 [0%Z] [1%Z] (Vec [5%float]) 1 [[5%float]] [0; 0; 1]%Z).
  - reflexivity.
  - reflexivity.
  - reflexivity.
  - reflexivity.
  - discriminate.
  - repeat constructor; lia.
  - reflexivity.
  - exact example_layers_keep_nodes.
  - exact example_batch_dense.
Defined.

Lemma forward_with_empty_instance_witness :
  exists a out,
    example_augment [0; 0; 2]%Z = Ok a /\
    example_forward [0; 0; 2]%Z = Ok (Mat 2 out) /\
    length out = Z.to_nat (batch_size_of [0; 0; 2]%Z) /\
    Z.to_nat 1 < length out /\
    (forall e, In e (virtual_edges_of 1 3 a) -> fst e <> (3 + 1)%Z).
Proof.
  apply (@forward_with_empty_instance 1 1 2 [9%float] (fun r => r)
           [example_layer; example_layer] (fun r => r ++ r)
           example_x 1 [0%Z] [1%Z] (Vec [5%float]) 1 [[5%float]] [0; 0; 2]%Z).
  - reflexivity.
  - reflexivity.
  - reflexivity.
  - reflexivity.
  - discriminate.
  - repeat constructor; lia.
  - reflexivity.
  - exact example_layers_keep_nodes.
  - simpl; lia.
  - reflexivity.
Defined.

(** Instance 1 of the batch vector [0, 0, 2] has no node, and [forward]
    returns its three rows without raising. *)
Lemma empty_instance_is_not_refused :
  exists out,
    instance_size [0; 0; 2]%Z 1 = 0 /\
    example_forward [0; 0; 2]%Z = Ok (Mat 2 out) /\
    length out = 3.
Proof. eexists. repeat split; vm_compute; reflexivity. Qed.

(** One instance (the batch vector of a joint graph), one row. *)
Example forward_single_instance :
  exists out, example_forward [0; 0; 0]%Z = Ok (Mat 2 out) /\ length out = 1.
Proof. eexists. split; vm_compute; reflexivity. Qed.

Import Training Scenarios.

(** * More on [build_joint_graph] *)

Lemma graph_edge_ids (N F E W : nat) (d : Data) (u v : Z) :
  graph N F E W d -> In (u, v) (edges (edge_index d)) ->
  (0 <= u < Z.of_nat N /\ 0 <= v < Z.of_nat N)%Z.
Proof.
  intros [_ _ [src [dst [He [Hs [Hd Hr]]]]] _ _] Hin.
  rewrite He in Hin. cbn [edges] in Hin.
  rewrite Forall_forall in Hr. split; apply Hr, in_or_app.
  - left. eapply in_combine_l; eassumption.
  - right. eapply in_combine_r; eassumption.
Qed.

Arguments graph_edge_ids [N F E W d u v] _ _.

Lemma graph_attr_length (N F E W : nat) (d : Data) :
  graph N F E W d -> length (attr_rows d) = E.
Proof. intros Hg. exact (graph_attr_rows Hg). Qed.

Arguments graph_attr_length [N F E W d] _.

Lemma graph_edge_count (N F E W : nat) (d : Data) :
  graph N F E W d -> length (edges (edge_index d)) = E.
Proof.
  intros [_ _ [src [dst [He [Hs [Hd _]]]]] _ _]. rewrite He. cbn [edges].
  rewrite length_combine. lia.
Qed.

Arguments graph_edge_count [N F E W d] _.

Lemma nth_error_after {T : Type} (l l' : list T) (p : nat) :
  nth_error (l ++ l') (length l + p) = nth_error l' p.
Proof.
  rewrite nth_error_app2 by lia. f_equal. lia.
Qed.

Section JointGraphInvariants.

Variable preprocess_graph : Data -> Data.
Variables (A B : Data) (label_diff : option float).
Variables N_a N_b F E_a E_b W : nat.

Hypothesis graph_A : graph N_a F E_a W (preprocess_graph A).
Hypothesis graph_B : graph N_b F E_b W (preprocess_graph B).
Hypothesis nodes_fit : (Z.of_nat N_a + Z.of_nat N_b < 2 ^ 63)%Z.
Hypothesis nodes_A : 0 < N_a.
Hypothesis nodes_B : 0 < N_b.

Local Abbreviation A' := (preprocess_graph A).
Local Abbreviation B' := (preprocess_graph B).
Local Abbreviation J :=
  (joint_graph_of preprocess_graph A B label_diff N_a N_b F E_a E_b W).

Lemma joint_graph_built :
  build_joint_graph preprocess_graph A B label_diff = Ok J.
Proof. now apply build_joint_graph_nonempty. Qed.

Lemma joint_graph_edge_ids (u v : Z) :
  In (u, v) (edges (edge_index J)) ->
  (0 <= u < Z.of_nat (N_a + N_b) /\ 0 <= v < Z.of_nat (N_a + N_b))%Z.
Proof.
  rewrite joint_graph_edges. intros Hin.
  apply in_app_iff in Hin. destruct Hin as [Hin|Hin].
  - pose proof (graph_edge_ids graph_A Hin). lia.
  - apply in_app_iff in Hin. destruct Hin as [Hin|Hin].
    + apply in_map_iff in Hin. destruct Hin as [[u' v'] [Heq Hin]].
      unfold shift_edge in Heq. cbn [fst snd] in Heq. injection Heq as <- <-.
      pose proof (graph_edge_ids graph_B Hin). lia.
    + apply in_cross_pairs in Hin.
      destruct Hin as [i [j [Hi [Hj [Heq|Heq]]]]]; injection Heq as -> ->; lia.
Qed.

Lemma joint_graph_of_graph :
  graph (N_a + N_b) F (E_a + E_b + 2 * N_a * N_b) W J.
Proof.
  pose proof (graph_edge_count graph_A) as HA.
  pose proof (graph_edge_count graph_B) as HB.
  constructor.
  - reflexivity.
  - unfold node_rows, ReRanker.joint_graph_of. cbn [x].
    fold (node_rows A') (node_rows B'). rewrite length_app.
    now rewrite (graph_nodes graph_A), (graph_nodes graph_B).
  - rewrite joint_graph_edge_index. eexists _, _.
    split; [reflexivity|].
    split; [rewrite length_map, !length_app, length_map, cross_pairs_length; lia|].
    split; [rewrite length_map, !length_app, length_map, cross_pairs_length; lia|].
    apply Forall_forall. intros v Hv.
    assert (Hedge : exists u w, In (u, w) (edges (edge_index J)) /\ (v = u \/ v = w)).
    { rewrite joint_graph_edges. apply in_app_iff in Hv.
      destruct Hv as [Hv|Hv]; apply in_map_iff in Hv;
        destruct Hv as [[u w] [Heq Hin]]; cbn [fst snd] in Heq; subst v;
        exists u, w; auto. }
    destruct Hedge as [u [w [Hin Hv']]].
    pose proof (@joint_graph_edge_ids u w Hin). destruct Hv'; subst; lia.
  - reflexivity.
  - unfold attr_rows, ReRanker.joint_graph_of. cbn [edge_attr].
    fold (attr_rows A') (attr_rows B').
    rewrite !length_app, repeat_length.
    rewrite (graph_attr_length graph_A), (graph_attr_length graph_B). lia.
Qed.

(** X1.  The joint graph of two graphs of the data model is a graph of the data
    model: node ids in range, one attribute row per edge. *)
Theorem joint_graph_is_graph :
  exists g,
    build_joint_graph preprocess_graph A B label_diff = Ok g /\
    graph (N_a + N_b) F (E_a + E_b + 2 * N_a * N_b) W g.
Proof.
  exists J. split; [apply joint_graph_built|apply joint_graph_of_graph].
Qed.

Lemma joint_graph_attr_rows :
  attr_rows J =
  attr_rows A' ++ attr_rows B' ++ repeat (repeat 0%float W) (2 * N_a * N_b).
Proof. reflexivity. Qed.

(** X2.  The original edges keep their place and their attribute rows: edge k
    of A is edge k of the joint graph, edge k of B is edge E_a + k with
    both ends moved by N_a, each with the attribute row it had. *)
Theorem joint_graph_keeps_edge_attributes :
  exists g,
    build_joint_graph preprocess_graph A B label_diff = Ok g /\
    (forall k, k < E_a ->
       nth_error (edges (edge_index g)) k = nth_error (edges (edge_index A')) k /\
       nth_error (attr_rows g) k = nth_error (attr_rows A') k) /\
    (forall k, k < E_b ->
       nth_error (edges (edge_index g)) (E_a + k) =
       option_map (shift_edge N_a) (nth_error (edges (edge_index B')) k) /\
       nth_error (attr_rows g) (E_a + k) = nth_error (attr_rows B') k).
Proof.
  exists J. split; [apply joint_graph_built|].
  pose proof (graph_edge_count graph_A) as HA.
  pose proof (graph_edge_count graph_B) as HB.
  pose proof (graph_attr_length graph_A) as HrA.
  pose proof (graph_attr_length graph_B) as HrB.
  rewrite joint_graph_edges, joint_graph_attr_rows. split.
  - intros k Hk. split; apply nth_error_app1; lia.
  - intros k Hk. split.
    + rewrite <- HA at 1. rewrite nth_error_after.
      rewrite nth_error_app1 by (rewrite length_map; lia).
      apply nth_error_map.
    + rewrite <- HrA at 1. rewrite nth_error_after.
      apply nth_error_app1. lia.
Qed.

(** X3.  Undirected inputs give an undirected joint graph: when A and B hold
    the reverse of each of their edges, so does the joint graph. *)
Theorem joint_graph_symmetric :
  (forall u v, In (u, v) (edges (edge_index A')) -> In (v, u) (edges (edge_index A'))) ->
  (forall u v, In (u, v) (edges (edge_index B')) -> In (v, u) (edges (edge_index B'))) ->
  exists g,
    build_joint_graph preprocess_graph A B label_diff = Ok g /\
    forall u v, In (u, v) (edges (edge_index g)) -> In (v, u) (edges (edge_index g)).
Proof.
  intros HsA HsB. exists J. split; [apply joint_graph_built|].
  rewrite joint_graph_edges. intros u v Hin.
  rewrite !in_app_iff in *. destruct Hin as [Hin|[Hin|Hin]].
  - left. now apply HsA.
  - right; left. apply in_map_iff in Hin. destruct Hin as [[u' v'] [Heq Hin]].
    unfold shift_edge in Heq. cbn [fst snd] in Heq. injection Heq as <- <-.
    apply in_map_iff. exists (v', u'). split; [reflexivity|now apply HsB].
  - right; right. apply in_cross_pairs in Hin. apply in_cross_pairs.
    destruct Hin as [i [j [Hi [Hj [Heq|Heq]]]]]; injection Heq as -> ->;
      exists i, j; auto.
Qed.

End JointGraphInvariants.

(** ** What [build_joint_graph] refuses *)

Section JointGraphErrors.

Variable preprocess_graph : Data -> Data.
Variables (A B : Data) (label_diff : option float).
Variables N_a N_b F_a F_b E_a E_b W_a W_b : nat.

Hypothesis graph_A : graph N_a F_a E_a W_a (preprocess_graph A).
Hypothesis graph_B : graph N_b F_b E_b W_b (preprocess_graph B).

(** X4.  Graphs whose node-feature widths or edge-feature widths differ are
    refused with the [RuntimeError] of [torch.cat], whatever their sizes. *)
Theorem build_joint_graph_width_mismatch :
  F_a <> F_b \/ W_a <> W_b ->
  build_joint_graph preprocess_graph A B label_diff = Err RuntimeError.
Proof.
  intros Hdiff.
  destruct graph_A as [HxA HnA [sa [da [HeA [Hsa [Hda HrA]]]]] HaA HlA].
  destruct graph_B as [HxB HnB [sb [db [HeB [Hsb [Hdb HrB]]]]] HaB HlB].
  unfold build_joint_graph, num_nodes. rewrite HxA, HxB, HeA, HeB, HaA, HaB.
  destruct (Nat.eq_dec F_a F_b) as [HF|HF].
  - subst F_b. destruct Hdiff as [Hdiff|HW]; [contradiction|].
    rewrite cat_rows. cbn [bind add_scalar map len].
    rewrite cat_cols by reflexivity. cbn [bind].
    unfold cat at 1. cbn [filter legacy_empty negb fold_left check_dim Nat.ltb Nat.leb bind cat2].
    apply Nat.eqb_neq in HW. now rewrite HW.
  - unfold cat at 1. cbn [filter legacy_empty negb fold_left check_dim Nat.ltb Nat.leb bind cat2].
    apply Nat.eqb_neq in HF. now rewrite HF.
Qed.

End JointGraphErrors.

Section JointGraphRawAttributes.

Variable preprocess_graph : Data -> Data.
Variables (A B : Data) (label_diff : option float).
Variables (F E_a E_b : nat) (xa xb : list (list float)).
Variables (sa da sb db : list Z) (va vb : list float).

Hypothesis x_A : x (preprocess_graph A) = Mat F xa.
Hypothesis x_B : x (preprocess_graph B) = Mat F xb.
Hypothesis edges_A : edge_index (preprocess_graph A) = Mat E_a [sa; da].
Hypothesis edges_B : edge_index (preprocess_graph B) = Mat E_b [sb; db].
Hypothesis attr_A : edge_attr (preprocess_graph A) = Vec va.
Hypothesis attr_B : edge_attr (preprocess_graph B) = Vec vb.

(** X5.  Edge attributes left 1-D (one scalar per edge, not one row per edge)
    are refused with [IndexError]: [edge_attr.size(1)] needs a matrix. *)
Theorem build_joint_graph_flat_edge_attr :
  build_joint_graph preprocess_graph A B label_diff = Err IndexError.
Proof.
  unfold build_joint_graph, num_nodes.
  rewrite x_A, x_B, edges_A, edges_B, attr_A, attr_B.
  rewrite cat_rows. cbn [bind add_scalar map len].
  rewrite cat_cols by reflexivity. cbn [bind]. rewrite cat_vec. cbn [bind].
  rewrite cross_edge_list_pairs.
  destruct (cross_pairs (length xa) (length xb)) as [|p ps] eqn:Ecp.
  - reflexivity.
  - rewrite tensor_of_pair_rows. cbn [bind]. unfold t.
    rewrite transpose_pair_rows, cat_cols by reflexivity. cbn [bind].
    rewrite size_mat_1. reflexivity.
Qed.

End JointGraphRawAttributes.

(** ** The label and the target *)

(** X6.  The label difference changes nothing but the stored target: with and
    without it the call raises the same error, or returns the same node
    features, edges, edge attributes and batch vector. *)
Theorem label_diff_only_sets_target
  (preprocess_graph : Data -> Data) (A B : Data) (label_diff : option float) :
  build_joint_graph preprocess_graph A B label_diff =
  (g <- build_joint_graph preprocess_graph A B None ;;
   Ok (mkData (x g) (edge_index g) (edge_attr g) (batch g)
         (option_map (fun d => Vec [float32 d]) label_diff))).
Proof.
  unfold build_joint_graph.
  repeat match goal with
         | |- context [bind ?m _] =>
             match m with
             | Ok _ => cbn [bind]
             | _ => destruct m; cbn [bind]; try reflexivity
             end
         end.
Qed.

(** ** The encoder on a joint graph *)

Lemma fold_max_zeros (k : nat) : fold_left Z.max (repeat 0%Z k) 0%Z = 0%Z.
Proof. induction k as [|k IH]; simpl; [reflexivity|exact IH]. Qed.

Lemma batch_size_of_zeros (k : nat) : batch_size_of (repeat 0%Z (S k)) = 1%Z.
Proof. unfold batch_size_of. cbn [repeat]. now rewrite fold_max_zeros. Qed.

Lemma zeros_sorted (k : nat) : Sorted Z.le (repeat 0%Z k).
Proof.
  induction k as [|k IH]; simpl; constructor; [assumption|].
  destruct k; simpl; constructor. lia.
Qed.

Lemma zeros_nonnegative (k : nat) : Forall (fun v => 0 <= v)%Z (repeat 0%Z k).
Proof. apply Forall_forall. intros v Hv. apply repeat_spec in Hv. lia. Qed.

Section EncoderOnJointGraph.

Variable preprocess_graph : Data -> Data.
Variables (A B : Data) (label_diff : option float).
Variables N_a N_b F E_a E_b W : nat.
Variables hidden_channels out_channels : nat.
Variable virtual_token : list float.
Variable input_proj : list float -> list float.
Variable layers : list layer.
Variable output_proj : list float -> list float.

Hypothesis graph_A : graph N_a F E_a W (preprocess_graph A).
Hypothesis graph_B : graph N_b F E_b W (preprocess_graph B).
Hypothesis nodes_fit : (Z.of_nat N_a + Z.of_nat N_b < 2 ^ 63)%Z.
Hypothesis nodes_A : 0 < N_a.
Hypothesis nodes_B : 0 < N_b.
Hypothesis token_width : length virtual_token = hidden_channels.
Hypothesis layers_keep_nodes :
  Forall (fun l : layer =>
            forall rows ei attrs, exists rows',
              l (Mat hidden_channels rows) ei attrs = Mat hidden_channels rows' /\
              length rows' = length rows) layers.

(** X7.  A joint graph is one instance for the encoder: [forward], with [F]
    input channels, returns exactly one row for it, and the single virtual
    token, node N_a + N_b, is joined in both directions with every node of
    the two molecules. *)
Theorem joint_graph_is_one_instance :
  exists g b a out,
    build_joint_graph preprocess_graph A B label_diff = Ok g /\
    batch g = Some (Vec b) /\
    augment F hidden_channels virtual_token input_proj
      (x g) (edge_index g) (Some (edge_attr g)) (Vec b) = Ok a /\
    forward F hidden_channels out_channels virtual_token input_proj layers
      output_proj (x g) (edge_index g) (Some (edge_attr g)) (Vec b)
      = Ok (Mat out_channels out) /\
    length out = 1 /\
    forall q, q < N_a + N_b ->
      In (Z.of_nat (N_a + N_b), Z.of_nat q) (edges (aug_edge_index a)) /\
      In (Z.of_nat q, Z.of_nat (N_a + N_b)) (edges (aug_edge_index a)).
Proof.
  set (J := joint_graph_of preprocess_graph A B label_diff N_a N_b F E_a E_b W).
  set (xs := node_rows (preprocess_graph A) ++ node_rows (preprocess_graph B)).
  set (es := edges (edge_index (preprocess_graph A)) ++
             map (shift_edge N_a) (edges (edge_index (preprocess_graph B))) ++
             cross_pairs N_a N_b).
  set (rows := attr_rows (preprocess_graph A) ++ attr_rows (preprocess_graph B) ++
               repeat (repeat 0%float W) (2 * N_a * N_b)).
  set (b := repeat 0%Z (N_a + N_b)).
  assert (Hxs : length xs = N_a + N_b).
  { unfold xs. rewrite length_app.
    now rewrite (graph_nodes graph_A), (graph_nodes graph_B). }
  assert (Hb : b <> []) by (unfold b; destruct (N_a + N_b) eqn:E; [lia|discriminate]).
  assert (HB : batch_size_of b = 1%Z).
  { unfold b. destruct (N_a + N_b) eqn:E; [lia|apply batch_size_of_zeros]. }
  pose proof (zeros_nonnegative (N_a + N_b)) as Hpos. fold b in Hpos.
  assert (Hfits : (batch_size_of b < 2 ^ 63)%Z) by (rewrite HB; reflexivity).
  pose proof (@augment_ok F hidden_channels virtual_token input_proj xs
                _ (map fst es) (map snd es) (Mat W rows) W rows b
                token_width eq_refl (eq_trans (length_map _ _) (eq_sym (length_map _ _)))
                eq_refl Hb Hpos Hfits) as Haug.
  destruct (@forward_ok F hidden_channels out_channels virtual_token input_proj
              layers output_proj xs _ (map fst es) (map snd es) (Mat W rows) W rows b
              token_width eq_refl (eq_trans (length_map _ _) (eq_sym (length_map _ _)))
              eq_refl Hb Hpos Hfits layers_keep_nodes)
    as [final [_ [_ [Hfwd Hout]]]].
  exists J, b. eexists. eexists.
  split; [now apply build_joint_graph_nonempty|].
  split; [reflexivity|].
  assert (Hei : edge_index J = Mat (length (map fst es)) [map fst es; map snd es]).
  { unfold J. rewrite joint_graph_edge_index. f_equal.
    unfold es. rewrite length_map, !length_app, length_map, cross_pairs_length.
    rewrite (graph_edge_count graph_A), (graph_edge_count graph_B). lia. }
  change (x J) with (Mat F xs). change (edge_attr J) with (Mat W rows).
  rewrite Hei.
  split; [exact Haug|]. split; [exact Hfwd|].
  split; [rewrite Hout, HB; reflexivity|].
  intros q Hq.
  rewrite (@augmented_edges hidden_channels virtual_token input_proj xs _
             (map fst es) (map snd es) W rows b token_width eq_refl
             (eq_trans (length_map _ _) (eq_sym (length_map _ _))) Hb Hpos).
  rewrite (@sorted_virtual_src hidden_channels virtual_token xs _
             (map fst es) (map snd es) b token_width eq_refl
             (eq_trans (length_map _ _) (eq_sym (length_map _ _))) Hb Hpos
             (zeros_sorted (N_a + N_b))).
  assert (Hedge : In (Z.of_nat (N_a + N_b), Z.of_nat q)
                     (combine (map (fun v => Z.of_nat (length xs) + v)%Z b)
                              (arange 0 (Z.of_nat (length b))))).
  { apply (@nth_error_In _ _ q). apply nth_error_combine_some.
    - rewrite nth_error_map. unfold b. rewrite nth_error_repeat by lia.
      cbn [option_map]. rewrite Hxs. f_equal. lia.
    - unfold b. rewrite repeat_length, arange_nth by lia. f_equal. }
  split; apply in_app_iff.
  - left. apply in_app_iff. now right.
  - right. apply in_map_iff. exists (Z.of_nat (N_a + N_b), Z.of_nat q).
    split; [reflexivity|]. apply in_app_iff. now right.
Qed.

End EncoderOnJointGraph.

(** * Further properties of [GraphTransformerEncoder.forward] *)

(** ** The virtual-token edges for any batch vector *)

Lemma map_fst_combine_same {S T : Type} (u : list S) (v : list T) :
  length u = length v -> map fst (combine u v) = u.
Proof.
  revert v. induction u as [|a u IH]; intros [|c v] Hlen; simpl in *;
    try discriminate; [reflexivity|]. f_equal. apply IH. lia.
Qed.

Lemma map_snd_combine_same {S T : Type} (u : list S) (v : list T) :
  length u = length v -> map snd (combine u v) = v.
Proof.
  revert v. induction u as [|a u IH]; intros [|c v] Hlen; simpl in *;
    try discriminate; [reflexivity|]. f_equal. apply IH. lia.
Qed.

Lemma count_occ_map_add (N : Z) (l : list Z) (k : Z) :
  count_occ Z.eq_dec (map (fun v => N + v)%Z l) (N + k)%Z = count_occ Z.eq_dec l k.
Proof.
  induction l as [|a l IH]; [reflexivity|]. cbn [map count_occ].
  destruct (Z.eq_dec (N + a) (N + k)), (Z.eq_dec a k); try lia.
Qed.

Section VirtualEdges.

Variables in_channels hidden_channels : nat.
Variable virtual_token : list float.
Variable input_proj : list float -> list float.

Variables (xs : list (list float)) (E : nat) (src dst : list Z).
Variables (attr : tensor float) (W : nat) (ea : list (list float)) (b : list Z).

Hypothesis token_width : length virtual_token = hidden_channels.
Hypothesis src_length : length src = E.
Hypothesis dst_length : length dst = E.
Hypothesis attr_shape : promote attr = Mat W ea.
Hypothesis batch_entries : b <> [].
Hypothesis batch_ids : Forall (fun v => 0 <= v)%Z b.
(** max(batch) + 1 fits a signed 64-bit integer: no instance id is
    2^63 - 1, the largest entry a [torch.long] tensor can hold. *)
Hypothesis batch_fits : (batch_size_of b < 2 ^ 63)%Z.

Local Abbreviation N := (length xs).
Local Abbreviation n := (length b).
Local Abbreviation the_augmented :=
  (augmented_of hidden_channels virtual_token input_proj xs E src dst W ea b).
Local Abbreviation run_augment :=
  (augment in_channels hidden_channels virtual_token input_proj
     (Mat in_channels xs) (Mat E [src; dst]) (Some attr) (Vec b)).
Local Abbreviation sorted_batch := (expand b (Z.to_nat (batch_size_of b))).

Lemma the_virtual_edges :
  virtual_edges_of E n the_augmented =
  combine (map (fun v => Z.of_nat N + v)%Z sorted_batch) (arange 0 (Z.of_nat n)).
Proof.
  exact (augmented_virtual_edges virtual_token input_proj xs src dst W ea
           token_width src_length dst_length batch_entries batch_ids).
Qed.

Lemma the_batch_range :
  Forall (fun v => 0 <= v < Z.of_nat (Z.to_nat (batch_size_of b)))%Z b.
Proof.
  exact (batch_range virtual_token src dst token_width src_length dst_length
           batch_entries batch_ids).
Qed.

Lemma the_lengths :
  length (map (fun v => Z.of_nat N + v)%Z sorted_batch) =
  length (arange 0 (Z.of_nat n)).
Proof.
  rewrite length_map, (expand_length _ the_batch_range), arange_length. lia.
Qed.

(** X8.  Whatever the order of the batch vector, the virtual-token edges pair
    the nodes 0, 1, ..., n-1, in this order, with the virtual tokens of the
    batch vector sorted in non-decreasing order: node q is the target of
    the token of the q-th smallest instance id. *)
Theorem virtual_edges_follow_sorted_batch :
  exists a s,
    run_augment = Ok a /\
    Permutation b s /\ StronglySorted Z.le s /\
    map fst (virtual_edges_of E n a) = map (fun v => Z.of_nat N + v)%Z s /\
    map snd (virtual_edges_of E n a) = arange 0 (Z.of_nat n).
Proof.
  exists the_augmented, sorted_batch.
  split; [now apply augment_ok|].
  split; [apply expand_permutation, the_batch_range|].
  split; [apply expand_sorted|].
  rewrite the_virtual_edges.
  split; [apply map_fst_combine_same, the_lengths
         |apply map_snd_combine_same, the_lengths].
Qed.

(** X9.  The virtual token of instance k sends exactly as many virtual edges as
    the instance has real nodes, and every real node receives exactly one
    virtual edge. *)
Theorem virtual_token_degree :
  exists a,
    run_augment = Ok a /\
    (forall k, (0 <= k < batch_size_of b)%Z ->
       count_occ Z.eq_dec (map fst (virtual_edges_of E n a)) (Z.of_nat N + k)%Z
       = instance_size b k) /\
    (forall q, q < n ->
       count_occ Z.eq_dec (map snd (virtual_edges_of E n a)) (Z.of_nat q) = 1).
Proof.
  exists the_augmented. split; [now apply augment_ok|].
  rewrite the_virtual_edges, (map_fst_combine_same _ _ the_lengths),
    (map_snd_combine_same _ _ the_lengths).
  split.
  - intros k Hk. rewrite count_occ_map_add, count_occ_expand.
    replace ((0 <=? k) && (k <? Z.of_nat (Z.to_nat (batch_size_of b))))%Z
      with true; [reflexivity|].
    symmetry. apply andb_true_iff. split; [apply Z.leb_le|apply Z.ltb_lt]; lia.
  - intros q Hq. unfold arange.
    assert (Hnodup : NoDup (map (fun i => (0 + Z.of_nat i)%Z)
                              (seq 0 (Z.to_nat (Z.of_nat n - 0))))).
    { apply NoDup_map_NoDup_ForallPairs; [|apply seq_NoDup].
      intros i j _ _ Hij. lia. }
    apply (proj1 (NoDup_count_occ' Z.eq_dec _) Hnodup).
    apply in_map_iff. exists q. split; [lia|]. apply in_seq. lia.
Qed.

(** X10.  When the input edges join nodes 0 .. N-1 and the batch vector has one
    entry per node, the augmented graph is well formed: every end of every
    augmented edge is one of the N + B rows of the augmented node
    features. *)
Theorem augmented_edge_ids_in_range :
  Forall (fun v => 0 <= v < Z.of_nat N)%Z (src ++ dst) -> n = N ->
  exists a,
    run_augment = Ok a /\
    len (aug_x a) = N + Z.to_nat (batch_size_of b) /\
    forall u v, In (u, v) (edges (aug_edge_index a)) ->
      (0 <= u < Z.of_nat (N + Z.to_nat (batch_size_of b)) /\
       0 <= v < Z.of_nat (N + Z.to_nat (batch_size_of b)))%Z.
Proof.
  intros Hids Hn. exists the_augmented. split; [now apply augment_ok|].
  split; [cbn [aug_x augmented_of len]; now rewrite length_app, length_map, repeat_length|].
  destruct (batch_size_of_bounds batch_entries batch_ids) as [HB _].
  assert (Hfwd : forall u v,
             In (u, v) (combine src dst ++
                        combine (map (fun v => Z.of_nat N + v)%Z sorted_batch)
                                (arange 0 (Z.of_nat n))) ->
             (0 <= u < Z.of_nat (N + Z.to_nat (batch_size_of b)) /\
              0 <= v < Z.of_nat (N + Z.to_nat (batch_size_of b)))%Z).
  { intros u v Hin. apply in_app_iff in Hin. destruct Hin as [Hin|Hin].
    - rewrite Forall_forall in Hids.
      pose proof (Hids u (in_or_app _ _ _ (or_introl (in_combine_l _ _ _ _ Hin)))).
      pose proof (Hids v (in_or_app _ _ _ (or_intror (in_combine_r _ _ _ _ Hin)))).
      lia.
    - pose proof (in_combine_l _ _ _ _ Hin) as Hu.
      pose proof (in_combine_r _ _ _ _ Hin) as Hv.
      apply in_map_iff in Hu. destruct Hu as [k [<- Hk]].
      apply (Permutation_in _ (Permutation_sym
               (expand_permutation _ the_batch_range))) in Hk.
      pose proof (proj1 (Forall_forall _ _) the_batch_range k Hk) as Hrange.
      unfold arange in Hv. apply in_map_iff in Hv. destruct Hv as [i [<- Hi]].
      apply in_seq in Hi. cbn beta in Hrange. lia. }
  intros u v Hin.
  rewrite (augmented_edges virtual_token input_proj xs src dst W ea
             token_width src_length dst_length batch_entries batch_ids) in Hin.
  apply in_app_iff in Hin. destruct Hin as [Hin|Hin].
  - now apply Hfwd.
  - apply in_map_iff in Hin. destruct Hin as [[u' v'] [Heq Hin]].
    unfold reverse_edge in Heq. cbn [fst snd] in Heq. injection Heq as <- <-.
    destruct (Hfwd _ _ Hin). split; assumption.
Qed.

(** ** What [forward] does not check *)

(** X11.  The number of edge-attribute rows is never compared with the number of
    edges: [forward]'s augmentation succeeds for any number of rows, and the
    augmented attribute matrix has one row per augmented edge exactly when
    the input had one row per edge. *)
Theorem edge_attr_rows_unchecked :
  exists a cols r rows,
    augment in_channels hidden_channels virtual_token input_proj
      (Mat in_channels xs) (Mat E [src; dst]) (Some attr) (Vec b) = Ok a /\
    aug_edge_index a = Mat cols r /\ cols = 2 * (E + n) /\
    aug_edge_attr a = Mat W rows /\ length rows = 2 * (length ea + n) /\
    (length rows = cols <-> length ea = E).
Proof.
  exists the_augmented. eexists _, _, _.
  split; [now apply augment_ok|].
  split; [reflexivity|]. split; [lia|]. split; [reflexivity|].
  rewrite !length_app, repeat_length. split; lia.
Qed.

(** ** Errors *)

(** X12.  Without edge attributes ([edge_attr = None]) a call that is otherwise
    well formed raises [AttributeError], at [edge_attr.size(-1)]. *)
Theorem forward_without_edge_attr (out_channels : nat) (layers : list layer)
  (output_proj : list float -> list float) :
  forward in_channels hidden_channels out_channels virtual_token input_proj
    layers output_proj (Mat in_channels xs) (Mat E [src; dst]) None (Vec b)
  = Err AttributeError.
Proof.
  destruct (batch_size_of_bounds batch_entries batch_ids) as [HB [Hrange _]].
  unfold forward, augment. rewrite linear_rows. cbn [bind option_map].
  rewrite (max_item_ok batch_entries). cbn [bind].
  replace (batch_size_of b - 1 + 1)%Z with (batch_size_of b) by lia.
  rewrite repeat_rows_ok by lia. cbn [bind]. rewrite token_width, cat_rows.
  cbn [bind]. rewrite size_mat_0. cbn [bind].
  rewrite (bincount_ok batch_entries batch_ids). cbn [bind len].
  rewrite length_app, length_map, repeat_length.
  replace (Z.of_nat (length xs + Z.to_nat (batch_size_of b)) - batch_size_of b)%Z
    with (Z.of_nat (length xs)) by lia.
  replace (Z.of_nat (length xs + Z.to_nat (batch_size_of b)))
    with (Z.of_nat (length xs) + Z.of_nat (Z.to_nat (batch_size_of b)))%Z by lia.
  replace (arange 0 (batch_size_of b))
    with (arange 0 (Z.of_nat (Z.to_nat (batch_size_of b))))
    by (f_equal; lia).
  rewrite repeat_interleave_bincount. cbn [bind].
  rewrite (stack_same_length _ _ the_lengths). cbn [bind].
  rewrite cat_cols by reflexivity. cbn [bind]. rewrite zip_app_two.
  cbn [select nth_error bind].
  rewrite stack_same_length by (rewrite !length_app, the_lengths; lia). cbn [bind].
  rewrite cat_cols by reflexivity. cbn [bind]. reflexivity.
Qed.

End VirtualEdges.

Section BatchErrors.

Variables in_channels hidden_channels out_channels : nat.
Variable virtual_token : list float.
Variable input_proj : list float -> list float.
Variable layers : list layer.
Variable output_proj : list float -> list float.
Variables (x0 : tensor float) (edge_index0 : tensor Z).
Variable edge_attr0 : option (tensor float).

(** X13.  An empty batch vector is refused with [RuntimeError], whatever the other
    arguments are: [batch.max()] has nothing to reduce. *)
Theorem forward_empty_batch :
  forward in_channels hidden_channels out_channels virtual_token input_proj
    layers output_proj x0 edge_index0 edge_attr0 (Vec []) = Err RuntimeError.
Proof.
  unfold forward, augment, linear.
  destruct x0 as [v|c rows];
    [destruct (length v =? in_channels)|destruct (c =? in_channels)];
    reflexivity.
Qed.

Lemma cat_error_is_runtime_0 (u v : tensor float) :
  match cat [u; v] 0 with
  | Ok _ => True
  | Err e => e = RuntimeError
  end.
Proof.
  unfold cat. cbn [filter].
  destruct u as [[|a u]|cu ru], v as [[|c v]|cv rv];
    cbn [legacy_empty negb fold_left check_dim bind cat2 Nat.eqb Nat.ltb Nat.leb];
    try exact I; try reflexivity.
  destruct (cu =? cv); [exact I|reflexivity].
Qed.

Lemma fold_max_negative (l : list Z) (a : Z) :
  (fold_left Z.max l a < 0)%Z -> (a < 0)%Z /\ Forall (fun v => v < 0)%Z l.
Proof.
  revert a. induction l as [|c l IH]; intros a Hlt; cbn [fold_left] in *.
  - split; [assumption|constructor].
  - destruct (IH _ Hlt) as [Hm Hl]. split; [lia|]. constructor; [lia|assumption].
Qed.

(** X14.  A batch vector with a negative instance id, and no id equal to
    the largest 64-bit integer, is refused with [RuntimeError], whatever the
    other arguments are: by [virtual_token.repeat] when every id is below
    -1, by [batch.bincount()] otherwise. *)
Theorem forward_negative_batch_id (b : list Z) :
  Exists (fun v => v < 0)%Z b -> Forall (fun v => v < 2 ^ 63 - 1)%Z b ->
  forward in_channels hidden_channels out_channels virtual_token input_proj
    layers output_proj x0 edge_index0 edge_attr0 (Vec b) = Err RuntimeError.
Proof.
  intros Hneg Hfit.
  assert (Hex : existsb (fun v => v <? 0)%Z b = true).
  { apply existsb_exists. apply Exists_exists in Hneg.
    destruct Hneg as [v [Hin Hv]]. exists v. split; [assumption|].
    now apply Z.ltb_lt. }
  assert (Hbin : bincount (Vec b) = Err RuntimeError).
  { unfold bincount. destruct b as [|a l]; [inversion Hneg|]. now rewrite Hex. }
  unfold forward, augment.
  destruct (linear in_channels hidden_channels input_proj x0) as [x1|e] eqn:Elin.
  2:{ unfold linear in Elin.
      destruct x0 as [v|c rows];
        [destruct (length v =? in_channels)|destruct (c =? in_channels)];
        try discriminate; injection Elin as <-; reflexivity. }
  cbn [bind].
  destruct (max_item (Vec b)) as [m|e] eqn:Emax.
  2:{ unfold max_item in Emax. cbn [elements] in Emax.
      destruct b; [injection Emax as <-; reflexivity|discriminate]. }
  assert (Hm : (m < 2 ^ 63 - 1)%Z).
  { unfold max_item in Emax. cbn [elements] in Emax.
    destruct b as [|a l]; [discriminate|]. injection Emax as <-.
    exact (proj1 (Forall_forall _ _) Hfit _ (fold_max_in l a)). }
  cbn [bind]. unfold repeat_rows at 1.
  destruct (Z.ltb_spec (m + 1) 0); [reflexivity|].
  destruct (Z.leb_spec (2 ^ 63) (m + 1)); [lia|]. cbn [bind].
  pose proof (cat_error_is_runtime_0 x1
                (Mat (length virtual_token) (repeat virtual_token (Z.to_nat (m + 1)))))
    as Hcat.
  destruct (cat _ 0) as [x2|e]; [|subst e; reflexivity].
  cbn [bind].
  destruct (size x2 0) as [n2|e] eqn:Esize.
  2:{ destruct x2; unfold size in Esize; cbn in Esize; discriminate. }
  cbn [bind]. rewrite Hbin. reflexivity.
Qed.

(** X22.  A batch vector that holds the largest 64-bit integer as an
    instance id is refused with [TypeError] by [virtual_token.repeat]:
    max(batch) + 1 is then 2^63, a Python int that fits no 64-bit integer.
    Node features of the expected width are all it takes; the edge
    arguments are not looked at. *)
Theorem forward_batch_id_overflow (xs : list (list float)) (b : list Z) :
  In (2 ^ 63 - 1)%Z b -> Forall (fun v => v <= 2 ^ 63 - 1)%Z b ->
  forward in_channels hidden_channels out_channels virtual_token input_proj
    layers output_proj (Mat in_channels xs) edge_index0 edge_attr0 (Vec b)
  = Err TypeError.
Proof.
  intros Hin Hrange.
  destruct b as [|a l]; [destruct Hin|].
  assert (Hmax : fold_left Z.max l a = (2 ^ 63 - 1)%Z).
  { pose proof (@fold_max_upper l a _ Hin) as Hge.
    pose proof (proj1 (Forall_forall _ _) Hrange _ (fold_max_in l a)) as Hle.
    cbn beta in Hle. lia. }
  unfold forward, augment. rewrite linear_rows. cbn [bind option_map].
  unfold max_item. cbn [elements bind]. rewrite Hmax.
  unfold repeat_rows. reflexivity.
Qed.

End BatchErrors.

(** * Further properties of [build_label_diff_dataset] *)

(** ** A NaN among the labels *)

Lemma float_is_nan (c : float) : is_nan c = true -> c = nan.
Proof.
  unfold is_nan. rewrite FloatAxioms.eqb_spec. intros Hc.
  rewrite <- (SF2Prim_Prim2SF c).
  destruct (Prim2SF c) as [s|s| |s m e]; [discriminate Hc| |reflexivity|].
  - destruct s; discriminate Hc.
  - unfold SFeqb, SFcompare in Hc.
    destruct s; rewrite Z.compare_refl, Pos.compare_cont_refl in Hc;
      discriminate Hc.
Qed.

Lemma float_sub_nan (c : float) : (c - nan = nan)%float.
Proof.
  rewrite <- (SF2Prim_Prim2SF (c - nan)), sub_spec.
  change (Prim2SF nan) with S754_nan.
  destruct (Prim2SF c) as [s|s| |s m e]; reflexivity.
Qed.

Lemma minimum_nan_r (a : float) : minimum a nan = nan.
Proof.
  cbn [minimum float64]. destruct (is_nan a) eqn:Ea; [now apply float_is_nan|reflexivity].
Qed.

Lemma maximum_nan_r (a : float) : maximum a nan = nan.
Proof.
  cbn [maximum float64]. destruct (is_nan a) eqn:Ea; [now apply float_is_nan|reflexivity].
Qed.

Lemma fold_minimum_nan (l : list float) (a : float) :
  a = nan \/ In nan l -> fold_left minimum l a = nan.
Proof.
  revert a. induction l as [|c l IH]; intros a [Ha|Hin]; cbn [fold_left].
  - assumption.
  - destruct Hin.
  - subst a. apply IH. left. reflexivity.
  - destruct Hin as [->|Hin]; apply IH; [left; apply minimum_nan_r|now right].
Qed.

Lemma fold_maximum_nan (l : list float) (a : float) :
  a = nan \/ In nan l -> fold_left maximum l a = nan.
Proof.
  revert a. induction l as [|c l IH]; intros a [Ha|Hin]; cbn [fold_left].
  - assumption.
  - destruct Hin.
  - subst a. apply IH. left. reflexivity.
  - destruct Hin as [->|Hin]; apply IH; [left; apply maximum_nan_r|now right].
Qed.

Lemma norm_label_nan_min (mx c : float) : norm_label nan mx c = nan.
Proof.
  unfold norm_label. cbn [sub mul div one two float64].
  rewrite !float_sub_nan. reflexivity.
Qed.

Lemma norm_labels_with_nan (labels : list float) (c : float) :
  In c labels -> is_nan c = true ->
  norm_labels labels = Ok (repeat nan (length labels)).
Proof.
  intros Hin Hc. apply float_is_nan in Hc. subst c.
  destruct labels as [|a l]; [destruct Hin|].
  assert (Hor : a = nan \/ In nan l) by (destruct Hin; auto).
  unfold norm_labels, np_min, np_max.
  rewrite (fold_minimum_nan _ Hor), (fold_maximum_nan _ Hor). cbn [bind].
  f_equal. apply map_const_repeat. intros b _. apply norm_label_nan_min.
Qed.

Section DatasetWithNaN.

Variable preprocess_graph : Data -> Data.
Variable rng : Type.
Variable sample2 : rng -> nat -> (nat * nat) * rng.
Variables (graphs : list Data) (labels : list float) (F W : nat).

Hypothesis sample2_distinct :
  forall s n, 2 <= n ->
    fst (fst (sample2 s n)) < n /\ snd (fst (sample2 s n)) < n /\
    fst (fst (sample2 s n)) <> snd (fst (sample2 s n)).
Hypothesis aligned : length labels = length graphs.
Hypothesis two_graphs : 2 <= length graphs.
Hypothesis molecules :
  Forall (fun g => molecule F W (preprocess_graph g)) graphs.

(** X15.  One NaN among the labels is enough to lose every target: [np.min] and
    [np.max] return NaN, every normalised label is NaN, and the dataset is
    built without an error, each of its [num_pairs] joint graphs with a NaN
    target. *)
Theorem nan_label_poisons_dataset (c : float) (num_pairs : nat) (s : rng) :
  In c labels -> is_nan c = true ->
  exists pairs s',
    norm_labels labels = Ok (repeat nan (length labels)) /\
    build_label_diff_dataset preprocess_graph sample2 graphs labels num_pairs s
      = Ok (pairs, s') /\
    length pairs = num_pairs /\
    Forall (fun g => y g = Some (Vec [nan])) pairs.
Proof.
  intros Hin Hc. pose proof (norm_labels_with_nan _ _ Hin Hc) as Hnorm.
  assert (Hlen : length (repeat nan (length labels)) = length graphs)
    by now rewrite repeat_length.
  destruct (@build_pairs_ok preprocess_graph rng sample2 graphs labels F W
              sample2_distinct aligned two_graphs molecules _ Hlen num_pairs s [])
    as [new [s' [Hrun [Hk Hsampled]]]].
  exists new, s'. unfold build_label_diff_dataset. rewrite Hnorm. cbn [bind].
  repeat split; try assumption.
  clear Hrun Hk. induction Hsampled as [|g ij new dr Hg _ IH]; constructor; [|exact IH].
  destruct Hg as [_ [_ [_ [n_i [n_j [g_i [g_j [Hi [Hj [_ [_ [_ Hy]]]]]]]]]]]].
  apply nth_error_In, repeat_spec in Hi. apply nth_error_In, repeat_spec in Hj.
  subst n_i n_j. exact Hy.
Qed.

(** X16.  Every element of the dataset is a graph of the data model over the
    feature widths F and W the input graphs share, with at least two nodes
    and an all-zero batch vector: the elements can be told apart only by
    their sizes, their contents and their targets. *)
Theorem dataset_elements_are_graphs (num_pairs : nat) (s : rng) :
  exists pairs s',
    build_label_diff_dataset preprocess_graph sample2 graphs labels num_pairs s
      = Ok (pairs, s') /\
    Forall (fun g => exists N E,
              2 <= N /\ graph N F E W g /\
              batch g = Some (Vec (repeat 0%Z N))) pairs.
Proof.
  destruct labels as [|a l] eqn:El; [simpl in aligned; lia|]. rewrite <- El in *.
  assert (Hnorm : exists norm, norm_labels labels = Ok norm /\
                               length norm = length graphs).
  { rewrite El. eexists. split; [reflexivity|].
    rewrite length_map, <- El. exact aligned. }
  destruct Hnorm as [norm [Hnorm Hlen]].
  destruct (@build_pairs_ok preprocess_graph rng sample2 graphs labels F W
              sample2_distinct aligned two_graphs molecules _ Hlen num_pairs s [])
    as [new [s' [Hrun [_ Hsampled]]]].
  exists new, s'. unfold build_label_diff_dataset. rewrite Hnorm. cbn [bind].
  split; [exact Hrun|].
  clear Hrun. induction Hsampled as [|g ij new dr Hg _ IH]; constructor; [|exact IH].
  destruct Hg as [_ [_ [_ [n_i [n_j [g_i [g_j [_ [_ [Hi [Hj [Hbuild _]]]]]]]]]]]].
  pose proof (proj1 (Forall_forall _ _) molecules) as Hm.
  destruct (Hm _ (nth_error_In _ _ Hi)) as [Ni [Ei [Hpi [Hbi Hgi]]]].
  destruct (Hm _ (nth_error_In _ _ Hj)) as [Nj [Ej [Hpj [Hbj Hgj]]]].
  rewrite (@build_joint_graph_nonempty preprocess_graph g_i g_j
             (Some (sub n_i n_j)) Ni Nj F Ei Ej W Hgi Hgj) in Hbuild by lia.
  injection Hbuild as <-.
  exists (Ni + Nj), (Ei + Ej + 2 * Ni * Nj).
  split; [lia|]. split; [now apply joint_graph_of_graph|reflexivity].
Qed.

End DatasetWithNaN.

(** ** Too few labels or graphs *)

Section DatasetErrors.

Variable preprocess_graph : Data -> Data.
Variable rng : Type.
Variable sample2 : rng -> nat -> (nat * nat) * rng.
Variables (graphs : list Data) (labels : list float).

Lemma norm_labels_nonempty :
  labels <> [] -> exists norm, norm_labels labels = Ok norm /\ length norm = length labels.
Proof.
  intros Hne. destruct labels as [|a l]; [contradiction|].
  eexists. split; [reflexivity|]. now rewrite length_map.
Qed.

(** X17.  Without labels the call raises [ValueError] (from [np.min]) for every
    [num_pairs], zero included.  With labels but fewer than two graphs it
    raises [ValueError] (from [random.sample]) as soon as one pair is asked
    for, while [num_pairs = 0] returns the empty list and leaves the
    generator untouched. *)
Theorem build_label_diff_dataset_too_few (s : rng) :
  (labels = [] ->
   forall num_pairs,
     build_label_diff_dataset preprocess_graph sample2 graphs labels num_pairs s
     = Err ValueError) /\
  (labels <> [] -> length graphs < 2 ->
   forall num_pairs,
     build_label_diff_dataset preprocess_graph sample2 graphs labels
       (S num_pairs) s = Err ValueError) /\
  (labels <> [] ->
   build_label_diff_dataset preprocess_graph sample2 graphs labels 0 s
   = Ok ([], s)).
Proof.
  split; [|split].
  - intros Hl k. unfold build_label_diff_dataset. rewrite Hl. reflexivity.
  - intros Hl Hg k. destruct (norm_labels_nonempty Hl) as [norm [Hnorm _]].
    unfold build_label_diff_dataset. rewrite Hnorm. cbn [bind build_pairs].
    unfold random_sample.
    replace (length graphs <? 2) with true by (symmetry; apply Nat.ltb_lt; lia).
    reflexivity.
  - intros Hl. destruct (norm_labels_nonempty Hl) as [norm [Hnorm _]].
    unfold build_label_diff_dataset. rewrite Hnorm. reflexivity.
Qed.

(** X18.  The function does not compare the lengths of [graphs] and [labels]:
    with fewer labels than graphs, the first draw of an index that has no
    label raises [IndexError], at [norm_labels[i]] or [norm_labels[j]]. *)
Theorem build_label_diff_dataset_missing_label (s s1 : rng) (i j num_pairs : nat) :
  labels <> [] -> 2 <= length graphs ->
  sample2 s (length graphs) = ((i, j), s1) ->
  length labels <= i \/ length labels <= j ->
  build_label_diff_dataset preprocess_graph sample2 graphs labels
    (S num_pairs) s = Err IndexError.
Proof.
  intros Hl Hg Hdraw Hout. destruct (norm_labels_nonempty Hl) as [norm [Hnorm Hlen]].
  unfold build_label_diff_dataset. rewrite Hnorm. cbn [bind build_pairs].
  unfold random_sample.
  replace (length graphs <? 2) with false by (symmetry; apply Nat.ltb_ge; lia).
  cbn [bind]. rewrite Hdraw.
  unfold getitem at 1. destruct (nth_error norm i) as [n_i|] eqn:Ei; [|reflexivity].
  cbn [bind]. unfold getitem at 1.
  destruct (nth_error norm j) as [n_j|] eqn:Ej; [|reflexivity].
  exfalso.
  assert (i < length norm) by (apply nth_error_Some; congruence).
  assert (j < length norm) by (apply nth_error_Some; congruence).
  lia.
Qed.

(** ** Building in two runs *)

Lemma bind_assoc {X Y Z0 : Type} (m : result X) (f : X -> result Y) (g : Y -> result Z0) :
  bind (bind m f) g = bind m (fun a => bind (f a) g).
Proof. destruct m; reflexivity. Qed.

Lemma build_pairs_accumulator (norm : list float) (k : nat) (s : rng) (acc : list Data) :
  build_pairs preprocess_graph sample2 graphs norm k s acc =
  (r <- build_pairs preprocess_graph sample2 graphs norm k s [] ;;
   Ok (acc ++ fst r, snd r)).
Proof.
  revert s acc. induction k as [|k IH]; intros s acc.
  - cbn [build_pairs bind fst snd]. now rewrite app_nil_r.
  - cbn [build_pairs].
    destruct (random_sample sample2 s (length graphs)) as [[[i j] s1]|e];
      [|reflexivity].
    cbn [bind].
    destruct (getitem norm i) as [n_i|e]; [|reflexivity]. cbn [bind].
    destruct (getitem norm j) as [n_j|e]; [|reflexivity]. cbn [bind].
    destruct (getitem graphs i) as [g_i|e]; [|reflexivity]. cbn [bind].
    destruct (getitem graphs j) as [g_j|e]; [|reflexivity]. cbn [bind].
    destruct (build_joint_graph preprocess_graph g_i g_j (Some (sub n_i n_j)))
      as [g|e]; [|reflexivity].
    cbn [bind]. rewrite (IH s1 (acc ++ [g])), (IH s1 ([] ++ [g])).
    destruct (build_pairs preprocess_graph sample2 graphs norm k s1 [])
      as [[p s2]|e]; [|reflexivity].
    cbn [bind fst snd app]. now rewrite <- app_assoc.
Qed.

Lemma build_pairs_add (norm : list float) (k1 k2 : nat) (s : rng) (acc : list Data) :
  build_pairs preprocess_graph sample2 graphs norm (k1 + k2) s acc =
  (r <- build_pairs preprocess_graph sample2 graphs norm k1 s acc ;;
   build_pairs preprocess_graph sample2 graphs norm k2 (snd r) (fst r)).
Proof.
  revert s acc. induction k1 as [|k1 IH]; intros s acc.
  - reflexivity.
  - cbn [Nat.add build_pairs].
    destruct (random_sample sample2 s (length graphs)) as [[[i j] s1]|e];
      [|reflexivity].
    cbn [bind].
    destruct (getitem norm i) as [n_i|e]; [|reflexivity]. cbn [bind].
    destruct (getitem norm j) as [n_j|e]; [|reflexivity]. cbn [bind].
    destruct (getitem graphs i) as [g_i|e]; [|reflexivity]. cbn [bind].
    destruct (getitem graphs j) as [g_j|e]; [|reflexivity]. cbn [bind].
    destruct (build_joint_graph preprocess_graph g_i g_j (Some (sub n_i n_j)))
      as [g|e]; [|reflexivity].
    cbn [bind]. apply IH.
Qed.

(** X19.  A dataset of k1 + k2 pairs is the dataset of k1 pairs followed by the
    dataset of k2 pairs built from the generator state the first run left;
    and it fails exactly when one of the two runs fails, with that error. *)
Theorem build_label_diff_dataset_in_two_runs (k1 k2 : nat) (s : rng) :
  build_label_diff_dataset preprocess_graph sample2 graphs labels (k1 + k2) s =
  (r1 <- build_label_diff_dataset preprocess_graph sample2 graphs labels k1 s ;;
   r2 <- build_label_diff_dataset preprocess_graph sample2 graphs labels k2
           (snd r1) ;;
   Ok (fst r1 ++ fst r2, snd r2)).
Proof.
  unfold build_label_diff_dataset.
  destruct (norm_labels labels) as [norm|e]; [|reflexivity].
  cbn [bind]. rewrite build_pairs_add.
  destruct (build_pairs preprocess_graph sample2 graphs norm k1 s [])
    as [[p1 s1]|e]; [|reflexivity].
  cbn [bind fst snd]. apply build_pairs_accumulator.
Qed.

End DatasetErrors.

(** * Properties of [train_re_ranker] *)

Section TrainerProperties.

Variable state : Type.
Variable train : state -> state.
Variable step : state -> Data -> result (state * float).
Variable batches : nat -> list Data.
Variable len_loader : nat.

Local Abbreviation epoch_of := (run_epoch step).

(** X20.  With a loader of length 0 that yields no batch, training for at least
    one epoch raises [ZeroDivisionError] at line 72, in the first epoch:
    no step has been taken and nothing has been printed.  Training for
    zero epochs returns at once. *)
Theorem train_re_ranker_empty_loader (epochs : nat) (s : state) :
  len_loader = 0 -> batches 0 = [] ->
  train_re_ranker train step batches len_loader 0 s = Returned (train s) [] /\
  train_re_ranker train step batches len_loader (S epochs) s
  = Failed ZeroDivisionError (train s) [].
Proof.
  intros Hlen Hnone. split; [reflexivity|].
  unfold train_re_ranker. cbn [epoch_loop].
  rewrite Nat.sub_diag, Hnone. cbn [run_epoch]. now rewrite Hlen.
Qed.

Hypothesis loader_nonempty : 0 < len_loader.

Lemma run_epoch_succeeds (data : list Data) (s : state) (total : float) :
  (forall s0 d, In d data -> exists r, step s0 d = Ok r) ->
  exists s' total', epoch_of data s total = (s', total', None).
Proof.
  revert s total. induction data as [|d rest IH]; intros s total Hok.
  - exists s, total. reflexivity.
  - cbn [run_epoch]. destruct (Hok s d (or_introl eq_refl)) as [[s1 loss] ->].
    apply IH. intros s0 d0 Hin. apply Hok. now right.
Qed.

Lemma run_epoch_total (data : list Data) (s s' : state) (t1 t1' t2 : float) :
  epoch_of data s t1 = (s', t1', None) ->
  exists t2', epoch_of data s t2 = (s', t2', None).
Proof.
  revert s t1 t2. induction data as [|d rest IH]; intros s t1 t2 Hrun.
  - cbn [run_epoch] in *. injection Hrun as <- _. eauto.
  - cbn [run_epoch] in *. destruct (step s d) as [[s1 loss]|e];
      [eapply IH; exact Hrun|discriminate].
Qed.

Lemma run_epoch_app (d1 d2 : list Data) (s s1 : state) (t t1 : float) :
  epoch_of d1 s t = (s1, t1, None) ->
  epoch_of (d1 ++ d2) s t = epoch_of d2 s1 t1.
Proof.
  revert s t. induction d1 as [|d rest IH]; intros s t Hrun.
  - cbn [run_epoch] in Hrun. injection Hrun as <- <-. reflexivity.
  - cbn [run_epoch app] in *. destruct (step s d) as [[s2 loss]|e];
      [now apply IH|discriminate].
Qed.

Lemma true_div_nonzero (total : float) :
  exists avg, true_div total len_loader = Some avg.
Proof.
  unfold true_div. destruct (Nat.eqb_spec len_loader 0); [lia|eauto].
Qed.

Lemma epoch_loop_ok (epochs todo : nat) (s : state) (printed : list report) :
  todo <= epochs ->
  (forall e s0 d, epochs - todo <= e < epochs -> In d (batches e) ->
     exists r, step s0 d = Ok r) ->
  exists s' new total,
    epoch_loop step batches len_loader epochs todo s printed
      = Returned s' (printed ++ new) /\
    map report_epoch new = seq (epochs - todo + 1) todo /\
    Forall (fun r => report_epochs r = epochs) new /\
    epoch_of (concat (map batches (seq (epochs - todo) todo))) s 0%float
      = (s', total, None).
Proof.
  revert s printed. induction todo as [|k IH]; intros s printed Hle Hok.
  - exists s, [], 0%float. rewrite app_nil_r. repeat split. constructor.
  - cbn [epoch_loop].
    destruct (@run_epoch_succeeds (batches (epochs - S k)) s 0)
      as [s1 [total1 Hepoch]].
    { intros s0 d Hin. apply (Hok (epochs - S k)); [lia|exact Hin]. }
    rewrite Hepoch. destruct (true_div_nonzero total1) as [avg ->].
    destruct (IH s1 (printed ++ [mkReport (epochs - S k + 1) epochs avg]))
      as [s' [new [total [Hrun [Hnum [Hden Hsteps]]]]]]; [lia| |].
    { intros e s0 d He. apply Hok. lia. }
    replace (epochs - k) with (S (epochs - S k)) in * by lia.
    destruct (@run_epoch_total _ _ _ _ _ total1 Hsteps) as [total2 Hrest].
    exists s', (mkReport (epochs - S k + 1) epochs avg :: new), total2.
    rewrite Hrun, <- app_assoc. cbn [app map seq concat].
    split; [reflexivity|]. split; [|split].
    + rewrite Hnum. f_equal; lia.
    + constructor; [reflexivity|exact Hden].
    + rewrite (@run_epoch_app _ _ _ _ _ _ Hepoch). exact Hrest.
Qed.

(** X21.  With a loader of positive length and steps that raise nothing on
    the batches the loader yields in the [epochs] epochs, training returns
    after printing exactly [epochs] lines, numbered 1 to [epochs] and each
    showing [epochs] as the total; the state it leaves is the one obtained
    by taking one step for every batch of every epoch, in the order the
    loader yields them, starting from [model.train()]. *)
Theorem train_re_ranker_completes (epochs : nat) (s : state) :
  (forall e s0 d, e < epochs -> In d (batches e) ->
     exists r, step s0 d = Ok r) ->
  exists s' printed total,
    train_re_ranker train step batches len_loader epochs s
    = Returned s' printed /\
    map report_epoch printed = seq 1 epochs /\
    Forall (fun r => report_epochs r = epochs) printed /\
    run_epoch step (concat (map batches (seq 0 epochs))) (train s) 0%float
    = (s', total, None).
Proof.
  intros Hok.
  destruct (@epoch_loop_ok epochs epochs (train s) [] (le_n _))
    as [s' [new [total [Hrun [Hnum [Hden Hsteps]]]]]].
  { intros e s0 d He. apply Hok. lia. }
  rewrite Nat.sub_diag in *. exists s', new, total. auto.
Qed.

End TrainerProperties.

(** * Concrete runs of the further properties *)

Lemma wide_graph_graph : graph 2 2 2 2 (already_encoded wide_graph).
Proof.
  constructor; try reflexivity.
  exists [0; 1]%Z, [1; 0]%Z. repeat split; try reflexivity.
  repeat constructor; lia.
Qed.

Lemma pair_graph_symmetric (u v : Z) :
  In (u, v) (edges (edge_index (already_encoded pair_graph))) ->
  In (v, u) (edges (edge_index (already_encoded pair_graph))).
Proof.
  cbn. intros H.
  repeat (destruct H as [H|H]; [injection H as <- <-; tauto|]). destruct H.
Qed.

Lemma path_graph_symmetric (u v : Z) :
  In (u, v) (edges (edge_index (already_encoded path_graph))) ->
  In (v, u) (edges (edge_index (already_encoded path_graph))).
Proof.
  cbn. intros H.
  repeat (destruct H as [H|H]; [injection H as <- <-; tauto|]). destruct H.
Qed.

Lemma joint_graph_is_graph_witness :
  exists g,
    build_joint_graph already_encoded pair_graph path_graph None = Ok g /\
    graph (2 + 3) 1 (2 + 4 + 2 * 2 * 3) 1 g.
Proof.
  apply (@joint_graph_is_graph already_encoded pair_graph path_graph None
           2 3 1 2 4 1 pair_graph_graph path_graph_graph).
  - reflexivity.
  - lia.
  - lia.
Defined.

Lemma joint_graph_keeps_edge_attributes_witness :
  exists g,
    build_joint_graph already_encoded pair_graph path_graph None = Ok g /\
    (forall k, k < 2 ->
       nth_error (edges (edge_index g)) k =
       nth_error (edges (edge_index (already_encoded pair_graph))) k /\
       nth_error (attr_rows g) k =
       nth_error (attr_rows (already_encoded pair_graph)) k) /\
    (forall k, k < 4 ->
       nth_error (edges (edge_index g)) (2 + k) =
       option_map (shift_edge 2)
         (nth_error (edges (edge_index (already_encoded path_graph))) k) /\
       nth_error (attr_rows g) (2 + k) =
       nth_error (attr_rows (already_encoded path_graph)) k).
Proof.
  apply (@joint_graph_keeps_edge_attributes already_encoded pair_graph
           path_graph None 2 3 1 2 4 1 pair_graph_graph path_graph_graph).
  - reflexivity.
  - lia.
  - lia.
Defined.

Lemma joint_graph_symmetric_witness :
  exists g,
    build_joint_graph already_encoded pair_graph path_graph None = Ok g /\
    forall u v, In (u, v) (edges (edge_index g)) -> In (v, u) (edges (edge_index g)).
Proof.
  apply (@joint_graph_symmetric already_encoded pair_graph path_graph None
           2 3 1 2 4 1 pair_graph_graph path_graph_graph).
  - reflexivity.
  - lia.
  - lia.
  - exact pair_graph_symmetric.
  - exact path_graph_symmetric.
Defined.

Lemma build_joint_graph_width_mismatch_witness :
  build_joint_graph already_encoded pair_graph wide_graph None = Err RuntimeError.
Proof.
  apply (@build_joint_graph_width_mismatch already_encoded pair_graph
           wide_graph None 2 2 1 2 2 2 1 2 pair_graph_graph wide_graph_graph).
  left. lia.
Defined.

Lemma build_joint_graph_flat_edge_attr_witness :
  build_joint_graph already_encoded raw_graph raw_graph None = Err IndexError.
Proof.
  apply (@build_joint_graph_flat_edge_attr already_encoded raw_graph raw_graph
           None 1 2 2 [[1%float]; [2%float]] [[1%float]; [2%float]]
           [0; 1]%Z [1; 0]%Z [0; 1]%Z [1; 0]%Z
           [1%float; 1%float] [1%float; 1%float]); reflexivity.
Defined.

Lemma joint_graph_is_one_instance_witness :
  exists g b a out,
    build_joint_graph already_encoded pair_graph path_graph None = Ok g /\
    batch g = Some (Vec b) /\
    augment 1 1 [9%float] (fun r => r)
      (x g) (edge_index g) (Some (edge_attr g)) (Vec b) = Ok a /\
    forward 1 1 2 [9%float] (fun r => r) [example_layer; example_layer]
      (fun r => r ++ r) (x g) (edge_index g) (Some (edge_attr g)) (Vec b)
      = Ok (Mat 2 out) /\
    length out = 1 /\
    forall q, q < 2 + 3 ->
      In (Z.of_nat (2 + 3), Z.of_nat q) (edges (aug_edge_index a)) /\
      In (Z.of_nat q, Z.of_nat (2 + 3)) (edges (aug_edge_index a)).
Proof.
  apply (@joint_graph_is_one_instance already_encoded pair_graph path_graph
           None 2 3 1 2 4 1 1 2 [9%float] (fun r => r)
           [example_layer; example_layer] (fun r => r ++ r)
           pair_graph_graph path_graph_graph).
  - reflexivity.
  - lia.
  - lia.
  - reflexivity.
  - exact example_layers_keep_nodes.
Defined.

Lemma virtual_edges_follow_sorted_batch_witness :
  exists a s,
    example_augment [1; 0; 1]%Z = Ok a /\
    Permutation [1; 0; 1]%Z s /\ StronglySorted Z.le s /\
    map fst (virtual_edges_of 1 3 a) = map (fun v => 3 + v)%Z s /\
    map snd (virtual_edges_of 1 3 a) = arange 0 3.
Proof.
  apply (@virtual_edges_follow_sorted_batch 1 1 [9%float] (fun r => r)
           example_x 1 [0%Z] [1%Z] (Vec [5%float]) 1 [[5%float]] [1; 0; 1]%Z).
  - reflexivity.
  - reflexivity.
  - reflexivity.
  - reflexivity.
  - discriminate.
  - repeat constructor; lia.
  - reflexivity.
Defined.

Lemma virtual_token_degree_witness :
  exists a,
    example_augment [1; 0; 1]%Z = Ok a /\
    (forall k, (0 <= k < batch_size_of [1; 0; 1])%Z ->
       count_occ Z.eq_dec (map fst (virtual_edges_of 1 3 a)) (3 + k)%Z
       = instance_size [1; 0; 1]%Z k) /\
    (forall q, q < 3 ->
       count_occ Z.eq_dec (map snd (virtual_edges_of 1 3 a)) (Z.of_nat q) = 1).
Proof.
  apply (@virtual_token_degree 1 1 [9%float] (fun r => r)
           example_x 1 [0%Z] [1%Z] (Vec [5%float]) 1 [[5%float]] [1; 0; 1]%Z).
  - reflexivity.
  - reflexivity.
  - reflexivity.
  - reflexivity.
  - discriminate.
  - repeat constructor; lia.
  - reflexivity.
Defined.

Lemma augmented_edge_ids_in_range_witness :
  exists a,
    example_augment [0; 0; 1]%Z = Ok a /\
    len (aug_x a) = 3 + Z.to_nat (batch_size_of [0; 0; 1]%Z) /\
    forall u v, In (u, v) (edges (aug_edge_index a)) ->
      (0 <= u < Z.of_nat (3 + Z.to_nat (batch_size_of [0; 0; 1])) /\
       0 <= v < Z.of_nat (3 + Z.to_nat (batch_size_of [0; 0; 1])))%Z.
Proof.
  apply (@augmented_edge_ids_in_range 1 1 [9%float] (fun r => r)
           example_x 1 [0%Z] [1%Z] (Vec [5%float]) 1 [[5%float]] [0; 0; 1]%Z).
  - reflexivity.
  - reflexivity.
  - reflexivity.
  - reflexivity.
  - discriminate.
  - repeat constructor; lia.
  - reflexivity.
  - repeat constructor; simpl; lia.
  - reflexivity.
Defined.

Lemma edge_attr_rows_unchecked_witness :
  exists a cols r rows,
    augment 1 1 [9%float] (fun r => r) (Mat 1 example_x) (Mat 1 [[0%Z]; [1%Z]])
      (Some (Vec [5%float; 6%float])) (Vec [0; 0; 1]%Z) = Ok a /\
    aug_edge_index a = Mat cols r /\ cols = 2 * (1 + 3) /\
    aug_edge_attr a = Mat 1 rows /\ length rows = 2 * (2 + 3) /\
    (length rows = cols <-> 2 = 1).
Proof.
  apply (@edge_attr_rows_unchecked 1 1 [9%float] (fun r => r)
           example_x 1 [0%Z] [1%Z] (Vec [5%float; 6%float]) 1
           [[5%float]; [6%float]] [0; 0; 1]%Z).
  - reflexivity.
  - reflexivity.
  - reflexivity.
  - reflexivity.
  - discriminate.
  - repeat constructor; lia.
  - reflexivity.
Defined.

Lemma forward_without_edge_attr_witness :
  forward 1 1 2 [9%float] (fun r => r) [example_layer; example_layer]
    (fun r => r ++ r) (Mat 1 example_x) (Mat 1 [[0%Z]; [1%Z]]) None
    (Vec [0; 0; 1]%Z) = Err AttributeError.
Proof.
  apply (@forward_without_edge_attr 1 1 [9%float] (fun r => r)
           example_x 1 [0%Z] [1%Z] [0; 0; 1]%Z).
  - reflexivity.
  - reflexivity.
  - reflexivity.
  - discriminate.
  - repeat constructor; lia.
  - reflexivity.
Defined.

Lemma forward_negative_batch_id_witness :
  example_forward [0; -1; 0]%Z = Err RuntimeError /\
  example_forward [-3; -2; -3]%Z = Err RuntimeError.
Proof.
  split.
  - apply (@forward_negative_batch_id 1 1 2 [9%float] (fun r => r)
             [example_layer; example_layer] (fun r => r ++ r)
             (Mat 1 example_x) (Mat 1 [[0%Z]; [1%Z]]) (Some (Vec [5%float]))
             [0; -1; 0]%Z).
    + apply Exists_cons_tl, Exists_cons_hd. lia.
    + repeat constructor; lia.
  - apply (@forward_negative_batch_id 1 1 2 [9%float] (fun r => r)
             [example_layer; example_layer] (fun r => r ++ r)
             (Mat 1 example_x) (Mat 1 [[0%Z]; [1%Z]]) (Some (Vec [5%float]))
             [-3; -2; -3]%Z).
    + apply Exists_cons_hd. lia.
    + repeat constructor; lia.
Defined.

Lemma forward_batch_id_overflow_witness :
  forward 1 1 2 [9%float] (fun r => r) [example_layer; example_layer]
    (fun r => r ++ r) (Mat 1 example_x) (Mat 1 [[0%Z]; [1%Z]])
    (Some (Vec [5%float])) (Vec [0; 2 ^ 63 - 1; 0]%Z)
  = Err TypeError.
Proof.
  apply (@forward_batch_id_overflow 1 1 2 [9%float] (fun r => r)
           [example_layer; example_layer] (fun r => r ++ r)
           (Mat 1 [[0%Z]; [1%Z]]) (Some (Vec [5%float]))
           example_x [0; 2 ^ 63 - 1; 0]%Z).
  - right. left. reflexivity.
  - repeat constructor; lia.
Defined.

Lemma nan_label_poisons_dataset_witness :
  exists pairs s',
    norm_labels [1; nan; 5]%float = Ok (repeat nan (length [1; nan; 5]%float)) /\
    build_label_diff_dataset already_encoded pool_sample2 example_graphs
      [1; nan; 5]%float 4 1%Z = Ok (pairs, s') /\
    length pairs = 4 /\
    Forall (fun g => y g = Some (Vec [nan])) pairs.
Proof.
  apply (@nan_label_poisons_dataset already_encoded Z pool_sample2
           example_graphs [1; nan; 5]%float 1 1 pool_sample2_distinct
           eq_refl example_graphs_two example_graphs_molecules nan 4 1%Z).
  - right. left. reflexivity.
  - reflexivity.
Defined.

Lemma dataset_elements_are_graphs_witness :
  exists pairs s',
    build_label_diff_dataset already_encoded pool_sample2 example_graphs
      [1; 3; 5]%float 4 1%Z = Ok (pairs, s') /\
    Forall (fun g => exists N E,
              2 <= N /\ graph N 1 E 1 g /\
              batch g = Some (Vec (repeat 0%Z N))) pairs.
Proof.
  apply (@dataset_elements_are_graphs already_encoded Z pool_sample2
           example_graphs [1; 3; 5]%float 1 1 pool_sample2_distinct
           eq_refl example_graphs_two example_graphs_molecules 4 1%Z).
Defined.

Lemma build_label_diff_dataset_too_few_witness :
  build_label_diff_dataset already_encoded pool_sample2 example_graphs
    [] 4 1%Z = Err ValueError /\
  build_label_diff_dataset already_encoded pool_sample2 [pair_graph]
    [1%float] 4 1%Z = Err ValueError /\
  build_label_diff_dataset already_encoded pool_sample2 [pair_graph]
    [1%float] 0 1%Z = Ok ([], 1%Z).
Proof.
  split; [|split].
  - apply (proj1 (@build_label_diff_dataset_too_few already_encoded Z
                    pool_sample2 example_graphs [] 1%Z)). reflexivity.
  - apply (proj1 (proj2 (@build_label_diff_dataset_too_few already_encoded Z
                           pool_sample2 [pair_graph] [1%float] 1%Z))).
    + discriminate.
    + simpl; lia.
  - apply (proj2 (proj2 (@build_label_diff_dataset_too_few already_encoded Z
                           pool_sample2 [pair_graph] [1%float] 1%Z))).
    discriminate.
Defined.

Lemma build_label_diff_dataset_missing_label_witness :
  build_label_diff_dataset already_encoded pool_sample2 example_graphs
    [1; 3]%float 4 2%Z = Err IndexError.
Proof.
  apply (@build_label_diff_dataset_missing_label already_encoded Z pool_sample2
           example_graphs [1; 3]%float 2%Z
           (snd (pool_sample2 2%Z 3)) (fst (fst (pool_sample2 2%Z 3)))
           (snd (fst (pool_sample2 2%Z 3))) 3).
  - discriminate.
  - exact example_graphs_two.
  - reflexivity.
  - left. vm_compute. lia.
Defined.

Lemma train_re_ranker_empty_loader_witness :
  train_re_ranker (fun s => s) counting_step (same_batches []) 0 0 0
    = Returned 0 [] /\
  train_re_ranker (fun s => s) counting_step (same_batches []) 0 3 0
    = Failed ZeroDivisionError 0 [].
Proof.
  apply (@train_re_ranker_empty_loader nat (fun s => s) counting_step
           (same_batches []) 0 2 0); reflexivity.
Defined.

Lemma counting_step_succeeds (e s : nat) (d : Data) :
  e < 3 -> In d (same_batches [labelled_batch; labelled_batch] e) ->
  exists r, counting_step s d = Ok r.
Proof.
  intros _ [<-|[<-|[]]]; eexists; reflexivity.
Qed.

Lemma train_re_ranker_completes_witness :
  exists s' printed total,
    train_re_ranker (fun s => s) counting_step
      (same_batches [labelled_batch; labelled_batch]) 2 3 0
    = Returned s' printed /\
    map report_epoch printed = seq 1 3 /\
    Forall (fun r => report_epochs r = 3) printed /\
    run_epoch counting_step
      (concat (map (same_batches [labelled_batch; labelled_batch]) (seq 0 3)))
      0 0%float
    = (s', total, None).
Proof.
  apply (@train_re_ranker_completes nat (fun s => s) counting_step
           (same_batches [labelled_batch; labelled_batch]) 2).
  - lia.
  - exact counting_step_succeeds.
Defined.
